(** * Pitchbook front end: the transcript section extractor and the
      workflow store resolver

    A shallow embedding of two pieces of the React front end and of the
    code around them:

    - [src/frontend/src/utils/dataParser.js]: [parseAnalystDataFile] and
      [getSectionData], which recover the per-section JSON payloads from
      the agent transcript with two regular expressions and [JSON.parse];
    - the [CosmosDBService] class ([services/cosmosdb]): the workflow
      store with its remote path and its [localStorage] fallback;
    - the pages that use the two: how [WorkflowList] and
      [WorkflowDetail] resolve what they show, the breakdown and the
      statistics [WorkflowDetail] derives from a record, the loading of
      the section pages, and the mapping of agent names in
      [AgentWorkflow].

    JavaScript strings are sequences of UTF-16 code units, JSON values are
    an inductive type whose objects are finite maps, exceptions are an
    explicit [outcome], and the mutable pieces ([cachedData], the
    [localStorage] entry) are passed in and out of every operation.  The
    language built-ins the code calls ([JSON.parse], [JSON.stringify],
    number/string conversions) are an interface, [Platform]; a reference
    instance is given for the concrete runs. *)

From Stdlib Require Import Ascii String QArith Sorted.
From stdpp Require Import gmap list.

Local Open Scope N_scope.

(** ** JavaScript strings *)

Module Str.

(** A string is its sequence of UTF-16 code units. *)
Definition jsstring := list N.

(** Code units of an ASCII literal. *)
Fixpoint u (s : string) : jsstring :=
  match s with
  | EmptyString => []
  | String a r => N_of_ascii a :: u r
  end.

(** Literal with escapes for readable transcripts: a backslash followed
    by [n] is a line feed, two backslashes are one, and an apostrophe is
    a double quote. *)
Fixpoint lit (s : string) : jsstring :=
  match s with
  | EmptyString => []
  | String a r =>
      match a, r with
      | "\"%char, String "n"%char r' => 10 :: lit r'
      | "\"%char, String "\"%char r' => 92 :: lit r'
      | "'"%char, _ => 34 :: lit r
      | _, _ => N_of_ascii a :: lit r
      end
  end.

Arguments u : simpl never.
Arguments lit : simpl never.

Definition LF : N := 10.
Definition backtick : N := 96.

(** [s.startsWith(w)], returning what follows [w]. *)
Fixpoint strip_prefix (w s : jsstring) : option jsstring :=
  match w, s with
  | [], _ => Some s
  | a :: w', b :: s' => if N.eqb a b then strip_prefix w' s' else None
  | _ :: _, [] => None
  end.

(** [s.includes(w)]. *)
Fixpoint includes (s w : jsstring) : bool :=
  match strip_prefix w s with
  | Some _ => true
  | None => match s with [] => false | _ :: s' => includes s' w end
  end.

(** [s.indexOf(c)] for a one-unit needle; [None] is JavaScript's [-1]. *)
Fixpoint indexOf (s : jsstring) (c : N) : option nat :=
  match s with
  | [] => None
  | a :: s' => if N.eqb a c then Some 0%nat else S <$> indexOf s' c
  end.

(** [s.substring(i)] and [s.substring(i, j)] for [i <= j]. *)
Definition substring (s : jsstring) (i : nat) : jsstring := drop i s.
Definition substring2 (s : jsstring) (i j : nat) : jsstring := take (j - i) (drop i s).

(** [s.split(c)[0]]: the text before the first [c], all of [s] without one. *)
Fixpoint split_head (s : jsstring) (c : N) : jsstring :=
  match s with
  | [] => []
  | a :: s' => if N.eqb a c then [] else a :: split_head s' c
  end.


End Str.
Export Str.

(** ** The two regular expressions of [dataParser.js]

    A pattern is matched by a backtracking matcher in continuation style,
    with the priorities of ECMAScript: a greedy quantifier tries the
    longest repetition first, a lazy one the shortest, and an alternative
    is left only when everything after it failed. *)

Module Regex.

(** [\s]: ECMAScript WhiteSpace and LineTerminator code units. *)
Definition is_space (c : N) : bool :=
  (9 <=? c) && (c <=? 13) || (c =? 32) || (c =? 160) || (c =? 5760)
  || (8192 <=? c) && (c <=? 8202) || (c =? 8232) || (c =? 8233)
  || (c =? 8239) || (c =? 8287) || (c =? 12288) || (c =? 65279).

(** [[\s\S]]: any code unit. *)
Definition any_unit (_ : N) : bool := true.

Section Combinators.
Context {A : Type}.

(** What is left to match: from the rest of the input to a result. *)
Definition cont := jsstring -> option A.

(** A literal run of code units. *)
Definition lit_ (w : jsstring) (k : cont) : cont :=
  fun s => match strip_prefix w s with Some r => k r | None => None end.

(** [(?:w)?], greedy: with [w] first, without it when that fails. *)
Definition opt_ (w : jsstring) (k : cont) : cont :=
  fun s => match lit_ w k s with Some r => Some r | None => k s end.

(** [c*], greedy, for a class [c] of single code units. *)
Fixpoint star_greedy (c : N -> bool) (k : cont) (s : jsstring) : option A :=
  match s with
  | a :: s' =>
      if c a then
        match star_greedy c k s' with Some r => Some r | None => k s end
      else k s
  | [] => k []
  end.

(** [c*?], lazy. *)
Fixpoint star_lazy (c : N -> bool) (k : cont) (s : jsstring) : option A :=
  match k s with
  | Some r => Some r
  | None =>
      match s with
      | a :: s' => if c a then star_lazy c k s' else None
      | [] => None
      end
  end.

(** [(c*?)], lazy and capturing: the continuation receives the capture;
    [acc] holds the units consumed so far, last first. *)
Fixpoint capture_lazy (c : N -> bool) (k : jsstring -> cont) (acc s : jsstring)
  : option A :=
  match k (rev acc) s with
  | Some r => Some r
  | None =>
      match s with
      | a :: s' => if c a then capture_lazy c k (a :: acc) s' else None
      | [] => None
      end
  end.

End Combinators.

Definition fence : jsstring := [backtick; backtick; backtick].
Definition closing : jsstring := LF :: fence.

(** [/\[FinancialDocumentsAgent\][\s\S]*?```json\s*\n([\s\S]*?)\n```/]
    anchored at the start of [s]; the result is capture group 1. *)
Definition section1Pattern_here : jsstring -> option jsstring :=
  lit_ (u "[FinancialDocumentsAgent]")
    (star_lazy any_unit
       (lit_ (fence ++ u "json")
          (star_greedy is_space
             (lit_ [LF]
                (capture_lazy any_unit
                   (fun body => lit_ closing (fun _ => Some body)) []))))).

(** [/```(?:json)?\s*\n([\s\S]*?)\n```/] anchored at the start of [s]:
    capture group 1 and the input after the match. *)
Definition allJsonBlocks_here : jsstring -> option (jsstring * jsstring) :=
  lit_ fence
    (opt_ (u "json")
       (star_greedy is_space
          (lit_ [LF]
             (capture_lazy any_unit
                (fun body => lit_ closing (fun rest => Some (body, rest))) [])))).

(** [txt.match(re)] for a pattern without the [g] flag: the match at the
    leftmost position that has one. *)
Fixpoint search {A} (re : jsstring -> option A) (s : jsstring) : option A :=
  match re s with
  | Some r => Some r
  | None => match s with [] => None | _ :: s' => search re s' end
  end.

(** [[...txt.matchAll(re)]] for the [g] pattern, as the list of its
    capture groups 1: after a match the scan resumes where it ended,
    otherwise one code unit further.  A match is never empty, so the
    length of the input bounds the number of steps. *)
Fixpoint matchAll_fuel (fuel : nat) (s : jsstring) : list jsstring :=
  match fuel with
  | O => []
  | S fuel' =>
      match allJsonBlocks_here s with
      | Some (body, rest) => body :: matchAll_fuel fuel' rest
      | None =>
          match s with
          | [] => []
          | _ :: s' => matchAll_fuel fuel' s'
          end
      end
  end.

Definition matchAll (s : jsstring) : list jsstring :=
  matchAll_fuel (S (length s)) s.

Definition section1Match (txt : jsstring) : option jsstring :=
  search section1Pattern_here txt.

(** A continuation that only ever answers with a rest at least [n]
    units shorter than its input: what bounds the steps of [matchAll]. *)
Definition shrinks {B} (k : jsstring → option (B * jsstring)) (n : nat) : Prop :=
  ∀ s b rest, k s = Some (b, rest) → (length rest + n ≤ length s)%nat.

(** *** Transcripts made of fenced blocks

    A fenced block as the transcript writes it: the fence, a language
    tag, white space, a line feed, the body, a line feed, the fence. *)
Record fenced_block := Fenced {
  tag : jsstring;
  padding : jsstring;
  body : jsstring
}.

Definition render (b : fenced_block) : jsstring :=
  fence ++ tag b ++ padding b ++ LF :: body b ++ closing.

(** Prose and blocks in turn, then a last stretch of prose. *)
Fixpoint transcript (parts : list (jsstring * fenced_block)) (tail : jsstring)
  : jsstring :=
  match parts with
  | [] => tail
  | (prose, b) :: parts' => prose ++ render b ++ transcript parts' tail
  end.

(** The blocks the [g] pattern is written for: the tag is [json] or
    missing, the body starts with something else than white space and
    holds no backtick. *)
Definition scannable (b : fenced_block) : Prop :=
  (tag b = [] ∨ tag b = u "json")
  ∧ Forall (fun a => is_space a = true) (padding b)
  ∧ (∃ c rest, body b = c :: rest ∧ is_space c = false)
  ∧ backtick ∉ body b.

End Regex.
Export Regex.

(** ** JavaScript values *)

Module JS.

(** A Number: a finite value, kept exact, or one of the three special
    values.  Binary64 rounding is not modelled. *)
Inductive number := NaN | PosInf | NegInf | Fin (q : Q).

(** [a === b] on Numbers. *)
Definition num_eqb (a b : number) : bool :=
  match a, b with
  | Fin p, Fin q => Qeq_bool p q
  | PosInf, PosInf | NegInf, NegInf => true
  | _, _ => false
  end.

(** [a <= b] on Numbers: false as soon as one side is [NaN]. *)
Definition num_leb (a b : number) : bool :=
  match a, b with
  | NaN, _ | _, NaN => false
  | NegInf, _ | _, PosInf => true
  | Fin p, Fin q => Qle_bool p q
  | _, _ => false
  end.

Definition num_of_Z (z : Z) : number := Fin (inject_Z z).
Definition num_of_nat (n : nat) : number := num_of_Z (Z.of_nat n).

(** [2 <= n && n <= 8]. *)
Definition in_range (n : number) : bool :=
  num_leb (num_of_Z 2) n && num_leb n (num_of_Z 8).

(** The values the code handles: what [JSON.parse] builds, and
    [undefined].  An object is the finite map of its own properties. *)
#[warnings="-register-all"]
Inductive value :=
| VUndefined
| VNull
| VBool (b : bool)
| VNum (n : number)
| VStr (s : jsstring)
| VArr (l : list value)
| VObj (o : gmap jsstring value).

(** Evaluation of an expression that may throw. *)
Inductive outcome (A : Type) :=
| Returns (a : A)
| Throws.
Arguments Returns {A} a.
Arguments Throws {A}.

(** Sequencing: the first throw ends the evaluation. *)
#[global] Instance outcome_ret : MRet outcome := @Returns.
#[global] Instance outcome_bind : MBind outcome :=
  fun A B f m => match m with Returns a => f a | Throws => Throws end.

(** [!!v]. *)
Definition truthy (v : value) : bool :=
  match v with
  | VUndefined | VNull => false
  | VBool b => b
  | VNum (Fin q) => negb (Qeq_bool q 0)
  | VNum NaN => false
  | VNum _ => true
  | VStr s => match s with [] => false | _ => true end
  | VArr _ | VObj _ => true
  end.

(** [a === b] against a primitive: two objects or arrays are the same
    only when they are one object, which a freshly parsed value never is
    with anything else. *)
Definition strict_eq (a b : value) : bool :=
  match a, b with
  | VUndefined, VUndefined | VNull, VNull => true
  | VBool x, VBool y => Bool.eqb x y
  | VNum x, VNum y => num_eqb x y
  | VStr x, VStr y => bool_decide (x = y)
  | _, _ => false
  end.

(** [a || b]. *)
Definition js_or (a b : value) : value := if truthy a then a else b.

(** An array index written as a property key: a canonical decimal. *)
Fixpoint digits_value (acc : nat) (k : jsstring) : option nat :=
  match k with
  | [] => Some acc
  | c :: k' =>
      if (48 <=? c) && (c <=? 57)
      then digits_value (10 * acc + N.to_nat (c - 48)) k'
      else None
  end.

Definition array_index (k : jsstring) : option nat :=
  match k with
  | [] => None
  | [48] => Some 0%nat
  | 48 :: _ => None
  | _ => digits_value 0 k
  end.

(** [v.k] or [v[k]]: own data properties, and [length] and the indices
    of arrays and strings.  Reading a property of [undefined] or [null]
    throws a TypeError.  Inherited properties are left out: none of the
    keys the code reads ([section], [id], [messages], [success], ...)
    names one. *)
Definition get_prop (v : value) (k : jsstring) : outcome value :=
  match v with
  | VUndefined | VNull => Throws
  | VObj o => Returns (default VUndefined (o !! k))
  | VArr l =>
      if bool_decide (k = u "length") then Returns (VNum (num_of_nat (length l)))
      else Returns (default VUndefined (i ← array_index k; l !! i))
  | VStr s =>
      if bool_decide (k = u "length") then Returns (VNum (num_of_nat (length s)))
      else Returns
             (default VUndefined (i ← array_index k; c ← s !! i; Some (VStr [c])))
  | VBool _ | VNum _ => Returns VUndefined
  end.

(** [v?.k]: [undefined] on [undefined] and [null], [v.k] otherwise. *)
Definition get_optional (v : value) (k : jsstring) : outcome value :=
  match v with
  | VUndefined | VNull => Returns VUndefined
  | _ => get_prop v k
  end.

(** [l.forEach(f)] for a callback that updates the variables [acc] it
    closes over: the first throw ends the loop. *)
Fixpoint forEach {A} (f : A -> value -> outcome A) (acc : A) (l : list value)
  : outcome A :=
  match l with
  | [] => Returns acc
  | x :: r => acc' ← f acc x; forEach f acc' r
  end.

(** The built-ins of the language that the code relies on.
    [JSON_parse] is [None] where [JSON.parse] throws a SyntaxError;
    [JSON_stringify] is total, since a value of [value] has no cycle and
    holds no BigInt; [StringToNumber] and [NumberToString] are the
    conversions behind [Number(s)] and [String(n)]. *)
Class Platform := {
  JSON_parse : jsstring -> option value;
  JSON_stringify : value -> jsstring;
  StringToNumber : jsstring -> number;
  NumberToString : number -> jsstring
}.

Section Coercions.
Context `{Platform}.

(** [String(v)], as a template literal and a computed property key
    apply it.  An array joins its elements with commas, [undefined] and
    [null] elements as nothing.  An object prints through the
    [toString] it inherits unless it has a property [toString] of its
    own: that is no function, and [valueOf] gives no primitive either,
    a TypeError. *)
Fixpoint ToString (v : value) : outcome jsstring :=
  match v with
  | VUndefined => Returns (u "undefined")
  | VNull => Returns (u "null")
  | VBool true => Returns (u "true")
  | VBool false => Returns (u "false")
  | VNum n => Returns (NumberToString n)
  | VStr s => Returns s
  | VArr l =>
      (fix join (l : list value) : outcome jsstring :=
         match l with
         | [] => Returns []
         | x :: r =>
             match match x with
                   | VUndefined | VNull => Returns []
                   | _ => ToString x
                   end with
             | Throws => Throws
             | Returns e =>
                 match r with
                 | [] => Returns e
                 | _ :: _ =>
                     match join r with
                     | Throws => Throws
                     | Returns t => Returns (e ++ u "," ++ t)
                     end
                 end
             end
         end) l
  | VObj o =>
      match o !! u "toString" with
      | Some _ => Throws
      | None => Returns (u "[object Object]")
      end
  end.

(** [Number(v)], as a comparison with a Number applies it: an array or
    an object goes through its string, and throws where that does. *)
Definition ToNumber (v : value) : outcome number :=
  match v with
  | VUndefined => Returns NaN
  | VNull => Returns (num_of_Z 0)
  | VBool true => Returns (num_of_Z 1)
  | VBool false => Returns (num_of_Z 0)
  | VNum n => Returns n
  | VStr s => Returns (StringToNumber s)
  | VArr _ | VObj _ => s ← ToString v; Returns (StringToNumber s)
  end.

(** [v >= z] and [v <= z] for an integer literal [z]. *)
Definition js_ge (v : value) (z : Z) : outcome bool :=
  n ← ToNumber v; Returns (num_leb (num_of_Z z) n).
Definition js_le (v : value) (z : Z) : outcome bool :=
  n ← ToNumber v; Returns (num_leb n (num_of_Z z)).

End Coercions.

Arguments js_ge : simpl never.
Arguments js_le : simpl never.

End JS.
Export JS.

(** ** [dataParser.js] *)

Module DataParser.

(** The [sections] object literal: eight slots, all [null]. *)
Definition section_key (n : string) : jsstring := u "section" ++ u n.
Arguments section_key : simpl never.

Definition empty_sections : gmap jsstring value :=
  <[section_key "1" := VNull]> (<[section_key "2" := VNull]>
  (<[section_key "3" := VNull]> (<[section_key "4" := VNull]>
  (<[section_key "5" := VNull]> (<[section_key "6" := VNull]>
  (<[section_key "7" := VNull]> (<[section_key "8" := VNull]> ∅))))))).

(** [sections[key]]. *)
Definition slot (sections : gmap jsstring value) (key : jsstring) : value :=
  default VUndefined (sections !! key).
Arguments slot : simpl never.

(** What [fetch] and [txtResponse.text()] deliver: a rejected promise, a
    response whose [ok] is false, or the text of the transcript. *)
Inductive fetched :=
| FetchRejected
| ResponseNotOk
| TextRejected
| Text (txtContent : jsstring).

(** [cachedData]: the object [{ sections }]. *)
Record data := Data { sections : gmap jsstring value }.

Section Extractor.
Context `{Platform}.

Definition sentinel : jsstring := u "OUTPUT STRUCTURE".

(** Lines 26-46: the dedicated pattern for section 1.  The inner [try]
    catches the SyntaxError of [JSON.parse] and the TypeError of reading
    [section] off [null]. *)
Definition extract_section1 (txtContent : jsstring)
    (sections : gmap jsstring value) : gmap jsstring value :=
  match section1Match txtContent with
  | Some jsonText =>
      if negb (includes jsonText sentinel) then
        match JSON_parse jsonText with
        | Some parsed =>
            match get_prop parsed (u "section") with
            | Returns s =>
                if strict_eq s (VNum (num_of_Z 1))
                then <[section_key "1" := parsed]> sections
                else sections
            | Throws => sections
            end
        | None => sections
        end
      else sections
  | None => sections
  end.

(** [sectionNum >= 2 && sectionNum <= 8]. *)
Definition section_in_range (sectionNum : value) : outcome bool :=
  ge ← js_ge sectionNum 2;
  if ge : bool then js_le sectionNum 8 else Returns false.

(** Lines 54-76: the body of the loop over [allJsonBlocks], for one
    match.  [continue] leaves [sections] as it is, and so does the empty
    [catch], which takes the SyntaxError of [JSON.parse] and the
    TypeErrors of reading [section] and of converting it. *)
Definition scan_block (sections : gmap jsstring value) (jsonText : jsstring)
  : gmap jsstring value :=
  match indexOf jsonText 123 with
  | None => sections
  | Some jsonStart =>
      let actualJson := substring jsonText jsonStart in
      match JSON_parse actualJson with
      | None => sections
      | Some parsed =>
          let attempt :=
            sectionNum ← get_prop parsed (u "section");
            passes ← section_in_range sectionNum;
            if passes : bool then
              printed ← ToString sectionNum;
              let sectionKey := u "section" ++ printed in
              if negb (truthy (slot sections sectionKey))
              then Returns (<[sectionKey := parsed]> sections)
              else Returns sections
            else Returns sections in
          match attempt with
          | Returns sections' => sections'
          | Throws => sections
          end
      end
  end.

(** Lines 14-77: both passes over the text of the transcript. *)
Definition extract (txtContent : jsstring) : gmap jsstring value :=
  foldl scan_block (extract_section1 txtContent empty_sections)
    (matchAll txtContent).

(** What the first pass stores in [section1], if anything. *)
Definition section1_payload (txtContent : jsstring) : option value :=
  jsonText ← section1Match txtContent;
  if includes jsonText sentinel then None
  else
    parsed ← JSON_parse jsonText;
    match get_prop parsed (u "section") with
    | Returns s => if strict_eq s (VNum (num_of_Z 1)) then Some parsed else None
    | Throws => None
    end.

(** What the loop makes of one match that passes every test of lines
    58-68: the key of the slot it is for, and the parsed payload. *)
Definition candidate (jsonText : jsstring) : option (jsstring * value) :=
  jsonStart ← indexOf jsonText 123;
  parsed ← JSON_parse (substring jsonText jsonStart);
  let attempt :=
    sectionNum ← get_prop parsed (u "section");
    passes ← section_in_range sectionNum;
    if passes : bool then
      printed ← ToString sectionNum;
      Returns (Some (u "section" ++ printed, parsed))
    else Returns None in
  match attempt with
  | Returns c => c
  | Throws => None
  end.

(** The match is a payload for the slot [key]. *)
Definition claims (jsonText key : jsstring) : Prop :=
  ∃ parsed, candidate jsonText = Some (key, parsed).

(** The well-formed section block of the specification, to compare
    [candidate] with: a body that is valid JSON once the text before its
    first brace is stripped, an object whose [section] is an integer
    from 1 to 8. *)
Definition spec_well_formed (body : jsstring) : bool :=
  match indexOf body 123 with
  | None => false
  | Some jsonStart =>
      match JSON_parse (substring body jsonStart) with
      | Some (VObj o) =>
          match o !! u "section" with
          | Some (VNum n) =>
              existsb (λ z, num_eqb n (num_of_Z z)) [1; 2; 3; 4; 5; 6; 7; 8]%Z
          | _ => false
          end
      | _ => false
      end
  end.

(** The keys of the slots the loop is meant to fill. *)
Definition scanned_keys : list jsstring :=
  section_key <$> ["2"; "3"; "4"; "5"; "6"; "7"; "8"]%string.

Definition all_keys : list jsstring := section_key "1" :: scanned_keys.

(** Lines 83-90, for the value under one key: the template literal of
    line 86 converts [section_title], when that is truthy, to a
    string. *)
Definition summary_line (section : value) : outcome unit :=
  if truthy section then
    title ← get_prop section (u "section_title");
    _ ← ToString (js_or title (VStr (u "Loaded")));
    Returns ()
  else Returns ().

(** [Object.keys(sections).forEach(...)].  Whichever key it comes from,
    what a line throws is a TypeError, and the loop changes nothing: the
    order of the keys does not show. *)
Definition log_summary (sections : gmap jsstring value) : outcome unit :=
  _ ← mapM summary_line (map_to_list sections).*2;
  Returns ().

(** [parseAnalystDataFile()], from the current [cachedData] and what the
    fetch delivers: the promise's outcome and [cachedData] afterwards.
    [cachedData] is assigned before the summary is logged; the outer
    [catch] logs and rethrows. *)
Definition parseAnalystDataFile (cachedData : option data) (f : fetched)
  : outcome data * option data :=
  match cachedData with
  | Some d => (Returns d, cachedData)
  | None =>
      match f with
      | Text txtContent =>
          let d := Data (extract txtContent) in
          match log_summary (extract txtContent) with
          | Returns _ => (Returns d, Some d)
          | Throws => (Throws, Some d)
          end
      | FetchRejected | ResponseNotOk | TextRejected => (Throws, cachedData)
      end
  end.

(** [getSectionData(sectionNumber)]. *)
Definition getSectionData (cachedData : option data) (f : fetched)
    (sectionNumber : value) : outcome value * option data :=
  match parseAnalystDataFile cachedData f with
  | (Returns allData, c) =>
      (printed ← ToString sectionNumber;
       Returns (slot (sections allData) (u "section" ++ printed)), c)
  | (Throws, c) => (Throws, c)
  end.

(** The module's exports: the only ways to reach [cachedData]. *)
Inductive call :=
| CallParseAnalystDataFile
| CallGetSectionData (sectionNumber : value).

(** [cachedData] after one call. *)
Definition cache_after (c : call) (cachedData : option data) (f : fetched)
  : option data :=
  match c with
  | CallParseAnalystDataFile => snd (parseAnalystDataFile cachedData f)
  | CallGetSectionData n => snd (getSectionData cachedData f n)
  end.

(** [cachedData] after a sequence of calls, each with its own fetch. *)
Definition cache_after_all (cs : list (call * fetched)) (cachedData : option data)
  : option data :=
  foldl (fun c cf => cache_after cf.1 c cf.2) cachedData cs.

End Extractor.

End DataParser.
Export DataParser.

(** ** The [CosmosDBService] class *)

Module CosmosDB.

(** The browser's [localStorage], as far as the class uses it: the entry
    [pitchbook_workflows], and how many code units the origin may still
    store ([setItem] throws a QuotaExceededError beyond that). *)
Record storage := Storage { quota : N; item : option jsstring }.

Definition getItem (st : storage) : option jsstring := item st.

Definition setItem (st : storage) (s : jsstring) : outcome storage :=
  if N.of_nat (length s) <=? quota st
  then Returns (Storage (quota st) (Some s))
  else Throws.

Definition removeItem (st : storage) : storage := Storage (quota st) None.

(** What one operation reads from its surroundings: the successive
    results of [new Date().toISOString()], in the order the operation
    asks for them, and [Math.random().toString(36)]. *)
Record env := Env { toISOString : nat -> jsstring; random36 : jsstring }.

(** The answer of the backend to the one request an operation sends:
    [Returns result] when [response.json()] resolves to [result],
    [Throws] when [fetch] or [response.json()] rejects.  The body of the
    request is a [JSON.stringify] of the operation's argument, which does
    not throw. *)
Definition remote := outcome value.

(** [{ success: true }] and [{ success: false, error: 'Workflow not found' }]. *)
Inductive reply := Success | WorkflowNotFound.

(** [{ success: true, workflowId, document }]. *)
Record created := Created { workflowId : value; document : value }.

(** [{ ...target, ...source }]: the later spread wins. *)
Definition spread (target source : gmap jsstring value) : gmap jsstring value :=
  source ∪ target.

(** [v.k = x] in strict mode: a TypeError on [undefined], [null] and the
    primitives.  An array, which [find] never returns for a string
    identifier, has no case of its own. *)
Definition set_prop (v : value) (k : jsstring) (x : value) : outcome value :=
  match v with
  | VObj o => Returns (VObj (<[k := x]> o))
  | _ => Throws
  end.

(** [v.push(x)]: a TypeError unless [v] is an array. *)
Definition js_push (v x : value) : outcome value :=
  match v with
  | VArr l => Returns (VArr (l ++ [x]))
  | _ => Throws
  end.

(** [l.find(w => w.id === workflowId)]. *)
Fixpoint find_id (l : list value) (workflowId : jsstring) : outcome value :=
  match l with
  | [] => Returns VUndefined
  | w :: r =>
      match get_prop w (u "id") with
      | Throws => Throws
      | Returns i =>
          if strict_eq i (VStr workflowId) then Returns w else find_id r workflowId
      end
  end.

(** [l.findIndex(w => w.id === workflowId)]; [None] is [-1]. *)
Fixpoint findIndex_id (l : list value) (workflowId : jsstring)
  : outcome (option nat) :=
  match l with
  | [] => Returns None
  | w :: r =>
      match get_prop w (u "id") with
      | Throws => Throws
      | Returns i =>
          if strict_eq i (VStr workflowId) then Returns (Some 0%nat)
          else match findIndex_id r workflowId with
               | Returns n => Returns (S <$> n)
               | Throws => Throws
               end
      end
  end.

(** [generateWorkflowId()], with the date read at position [n]. *)
Definition generateWorkflowId (e : env) (n : nat) : jsstring :=
  let timestamp := split_head (toISOString e n) 84 in
  let randomStr := substring2 (random36 e) 2 8 in
  u "workflow-" ++ timestamp ++ u "-" ++ randomStr.

Section Service.
Context `{Platform}.

(** [getAllFromLocalStorage()]: the parsed entry, [[]] when the entry is
    missing or empty or does not parse. *)
Definition getAllFromLocalStorage (st : storage) : value :=
  match getItem st with
  | Some data =>
      if truthy (VStr data)
      then match JSON_parse data with Some v => v | None => VArr [] end
      else VArr []
  | None => VArr []
  end.

(** [getFromLocalStorage(workflowId)]: [find] throws on a value that is
    no array and on a [null] element; the [catch] returns [null]. *)
Definition getFromLocalStorage (st : storage) (workflowId : jsstring) : value :=
  match getAllFromLocalStorage st with
  | VArr workflows =>
      match find_id workflows workflowId with
      | Returns w => w
      | Throws => VNull
      end
  | _ => VNull
  end.

(** The object literal of [saveToLocalStorage]. *)
Definition new_document (e : env) (workflowId : jsstring)
    (workflow : gmap jsstring value) : value :=
  VObj (spread
          (<[u "id" := VStr workflowId]>
             (<[u "workflowId" := VStr workflowId]>
                (<[u "createdAt" := VStr (toISOString e 1)]>
                   (<[u "status" := VStr (u "in_progress")]>
                      (<[u "messages" := VArr []]> ∅)))))
          workflow).

(** [saveToLocalStorage(workflow)]: the identifier, or [undefined] when
    the [catch] was taken, and the storage afterwards. *)
Definition saveToLocalStorage (e : env) (st : storage)
    (workflow : gmap jsstring value) : value * storage :=
  let workflowId := generateWorkflowId e 0 in
  let document := new_document e workflowId workflow in
  let workflows := getAllFromLocalStorage st in
  match js_push workflows document with
  | Returns workflows' =>
      match setItem st (JSON_stringify workflows') with
      | Returns st' => (VStr workflowId, st')
      | Throws => (VUndefined, st)
      end
  | Throws => (VUndefined, st)
  end.

(** [updateInLocalStorage(workflowId, updatedWorkflow)]. *)
Definition updateInLocalStorage (st : storage) (workflowId : jsstring)
    (updatedWorkflow : value) : storage :=
  match getAllFromLocalStorage st with
  | VArr workflows =>
      match findIndex_id workflows workflowId with
      | Returns (Some index) =>
          match setItem st (JSON_stringify (VArr (<[index := updatedWorkflow]> workflows))) with
          | Returns st' => st'
          | Throws => st
          end
      | Returns None => st
      | Throws => st
      end
  | _ => st
  end.


(** [clearLocalStorage()]. *)
Definition clearLocalStorage (st : storage) : storage := removeItem st.

(** The common head of every [try] block: await the answer and throw
    unless [result.success] is truthy. *)
Definition succeeded (r : remote) : outcome value :=
  result ← r;
  success ← get_prop result (u "success");
  if truthy success then Returns result else Throws.

(** [createWorkflow(workflowData)].  In the [catch], the second
    [console.log] reads [length] off what [getAllFromLocalStorage]
    returns. *)
Definition createWorkflow (e : env) (st : storage) (r : remote)
    (workflowData : gmap jsstring value) : outcome created * storage :=
  let attempt :=
    result ← succeeded r;
    workflowId ← get_prop result (u "workflowId");
    workflow ← get_prop result (u "workflow");
    Returns (Created workflowId workflow) in
  match attempt with
  | Returns c => (Returns c, st)
  | Throws =>
      let '(workflowId, st') := saveToLocalStorage e st workflowData in
      match get_prop (getAllFromLocalStorage st') (u "length") with
      | Returns _ => (Returns (Created workflowId VUndefined), st')
      | Throws => (Throws, st')
      end
  end.

(** [addMessage(workflowId, message)]. *)
Definition addMessage (e : env) (st : storage) (r : remote)
    (workflowId : jsstring) (message : gmap jsstring value)
  : outcome reply * storage :=
  match succeeded r with
  | Returns _ => (Returns Success, st)
  | Throws =>
      let workflow := getFromLocalStorage st workflowId in
      if truthy workflow then
        let stamped :=
          VObj (spread message
                  {[u "timestamp" :=
                      js_or (default VUndefined (message !! u "timestamp"))
                            (VStr (toISOString e 0))]}) in
        let pushed :=
          messages ← get_prop workflow (u "messages");
          workflow' ← (if negb (truthy messages)
                       then set_prop workflow (u "messages") (VArr [])
                       else Returns workflow);
          messages' ← get_prop workflow' (u "messages");
          messages'' ← js_push messages' stamped;
          set_prop workflow' (u "messages") messages'' in
        match pushed with
        | Returns workflow' =>
            (Returns Success, updateInLocalStorage st workflowId workflow')
        | Throws => (Throws, st)
        end
      else (Returns WorkflowNotFound, st)
  end.

(** [updateWorkflowStatus(workflowId, status)]. *)
Definition updateWorkflowStatus (e : env) (st : storage) (r : remote)
    (workflowId : jsstring) (status : value) : outcome reply * storage :=
  match succeeded r with
  | Returns _ => (Returns Success, st)
  | Throws =>
      let workflow := getFromLocalStorage st workflowId in
      if truthy workflow then
        let updated :=
          workflow' ← set_prop workflow (u "status") status;
          set_prop workflow' (u "completedAt") (VStr (toISOString e 0)) in
        match updated with
        | Returns workflow' =>
            (Returns Success, updateInLocalStorage st workflowId workflow')
        | Throws => (Throws, st)
        end
      else (Returns WorkflowNotFound, st)
  end.

(** [getWorkflow(workflowId)]. *)
Definition getWorkflow (st : storage) (r : remote) (workflowId : jsstring)
  : value :=
  match result ← succeeded r; get_prop result (u "workflow") with
  | Returns workflow => workflow
  | Throws => getFromLocalStorage st workflowId
  end.

(** [getAllWorkflows()].  Both branches log the [length] of what they
    return, in a template literal, which converts it to a string; in
    the [catch] that line is outside any [try], and throws on the
    [null] a stored entry may parse to. *)
Definition getAllWorkflows (st : storage) (r : remote) : outcome value :=
  let attempt :=
    result ← r;
    workflows ← get_prop result (u "workflows");
    if truthy workflows
    then
      len ← get_prop workflows (u "length");
      _ ← ToString len;
      Returns workflows
    else Throws in
  match attempt with
  | Returns workflows => Returns workflows
  | Throws =>
      let localWorkflows := getAllFromLocalStorage st in
      len ← get_prop localWorkflows (u "length");
      _ ← ToString len;
      Returns localWorkflows
  end.

(** The store just written reads back as it was written. *)
Definition round_trips (v : value) : Prop :=
  JSON_stringify v ≠ [] ∧ JSON_parse (JSON_stringify v) = Some v.

End Service.

(** The record carries [workflowId] as its [id]. *)
Definition has_id (w : value) (workflowId : jsstring) : Prop :=
  ∃ o, w = VObj o ∧ o !! u "id" = Some (VStr workflowId).


End CosmosDB.
Export CosmosDB.

(** ** The workflow pages: [WorkflowList] and [WorkflowDetail]

    The state of a component is a record of its [useState] variables; a
    function takes the state it finds and gives the state it leaves. *)

Module WorkflowList.

Record state := State { workflows : value; loading : bool; error : value }.

(** [workflows.length === 0]. *)
Definition is_empty (workflows : value) : outcome bool :=
  len ← get_prop workflows (u "length");
  Returns (strict_eq len (VNum (num_of_Z 0))).

(** The inner [try] around the fetch of [/workflow.json]: the assignment
    [workflows = [mockData]] comes before the one read that can throw,
    [mockData.id] in the log. *)
Definition load_mock (mock : remote) (workflows : value) : value :=
  match mock with
  | Returns mockData => VArr [mockData]
  | Throws => workflows
  end.

Section List.
Context `{Platform}.

(** [fetchWorkflows()], from the answer [r] of the backend and the
    answer [mock] to the fetch of [/workflow.json]: how the promise
    settles and the state then.  The two logs before [setWorkflows]
    convert [workflows.length] to a string.  A throw in the [catch]
    block rejects the promise and leaves [loading] set. *)
Definition fetchWorkflows (st : storage) (r mock : remote) (s : state)
  : outcome unit * state :=
  let attempt :=
    workflows ← getAllWorkflows st r;
    nothing ← (if negb (truthy workflows) then Returns true
               else is_empty workflows);
    workflows ← (if nothing : bool then
                   let workflows := getAllFromLocalStorage st in
                   none ← is_empty workflows;
                   Returns (if none : bool then load_mock mock workflows
                            else workflows)
                 else Returns workflows);
    len ← get_prop workflows (u "length");
    _ ← ToString len;
    Returns workflows in
  match attempt with
  | Returns workflows => (Returns (), State workflows false (error s))
  | Throws =>
      let localWorkflows := getAllFromLocalStorage st in
      match is_empty localWorkflows with
      | Throws => (Throws, State (workflows s) true (error s))
      | Returns none =>
          let allWorkflows :=
            if none then load_mock mock localWorkflows else localWorkflows in
          match is_empty allWorkflows with
          | Throws => (Throws, State allWorkflows true (error s))
          | Returns none' =>
              (Returns (),
               State allWorkflows false
                 (if none' then VStr (u "No workflows found") else error s))
          end
      end
  end.

End List.

End WorkflowList.

Module WorkflowDetail.

Record state := State { workflow : value; loading : bool; error : value }.

(** One entry of [getSectionBreakdown]. *)
Record section_entry := SectionEntry {
  number : value;
  agent : value;
  status : jsstring;
  timestamp : value
}.

(** The callback of [getSectionBreakdown], on the variables [sections]
    and [currentSection] ([None] for [null]). *)
Definition breakdown_step (acc : list section_entry * option section_entry)
    (msg : value) : outcome (list section_entry * option section_entry) :=
  type ← get_prop msg (u "type");
  if strict_eq type (VStr (u "agent_response")) then
    data ← get_prop msg (u "data");
    section ← get_optional data (u "section");
    if truthy section then
      let sectionNum := section in
      let changed :=
        match acc.2 with
        | None => true
        | Some currentSection => negb (strict_eq (number currentSection) sectionNum)
        end in
      if changed then
        agent ← get_prop msg (u "agent");
        completed ← get_prop data (u "completed");
        timestamp ← get_prop msg (u "timestamp");
        let currentSection :=
          SectionEntry sectionNum agent
            (if truthy completed then u "completed" else u "in-progress")
            timestamp in
        Returns (acc.1 ++ [currentSection], Some currentSection)
      else Returns acc
    else Returns acc
  else Returns acc.

(** [getSectionBreakdown()], on the [workflow] of the state.  A
    [messages] that is truthy and no array has no [forEach]: a
    TypeError. *)
Definition getSectionBreakdown (workflow : value)
  : outcome (list section_entry) :=
  messages ← get_optional workflow (u "messages");
  if negb (truthy messages) then Returns []
  else
    match messages with
    | VArr l => acc ← forEach breakdown_step ([], None) l; Returns acc.1
    | _ => Throws
    end.

(** No two entries in a row stand for the same section. *)
Definition alternates (secs : list section_entry) : Prop :=
  ∀ i s t, secs !! i = Some s → secs !! S i = Some t →
           strict_eq (number s) (number t) = false.

(** What the loop keeps true of [sections] and [currentSection]. *)
Definition grouped (acc : list section_entry * option section_entry) : Prop :=
  acc.2 = last acc.1
  ∧ Forall (λ s, truthy (number s) = true) acc.1
  ∧ alternates acc.1.

(** The names [stats = {}] inherits from [Object.prototype]: under each
    of them [stats[key]] is a function, or the prototype itself, and so
    truthy. *)
Definition object_prototype : list jsstring :=
  u <$> ["constructor"; "__defineGetter__"; "__defineSetter__";
         "hasOwnProperty"; "__lookupGetter__"; "__lookupSetter__";
         "isPrototypeOf"; "propertyIsEnumerable"; "toString"; "valueOf";
         "__proto__"; "toLocaleString"]%string.

(** The own properties of [stats], in the order of their creation: the
    key, and [{ count, agent }]. *)
Definition stats := list (jsstring * (nat * value)).

(** [if (!stats[key]) stats[key] = { count: 0, agent }; stats[key].count++]
    for a key that is no inherited name; an entry, being an object, is
    truthy. *)
Fixpoint bump (key : jsstring) (agent : value) (st : stats) : stats :=
  match st with
  | [] => [(key, (1%nat, agent))]
  | (k, (count, a)) :: r =>
      if bool_decide (k = key) then (k, (S count, a)) :: r
      else (k, (count, a)) :: bump key agent r
  end.

(** The value of a run of decimal digits. *)
Fixpoint digits_N (acc : N) (k : jsstring) : option N :=
  match k with
  | [] => Some acc
  | c :: k' =>
      if (48 <=? c) && (c <=? 57) then digits_N (10 * acc + (c - 48)) k'
      else None
  end.

(** A key that is an array index: a canonical decimal below [2^32 - 1]. *)
Definition index_key (k : jsstring) : option N :=
  match k with
  | [] => None
  | [48] => Some 0
  | 48 :: _ => None
  | _ => i ← digits_N 0 k; if i <? 4294967295 then Some i else None
  end.

(** Insertion of an entry among entries in ascending order of index. *)
Fixpoint insert_index (i : N) (x : nat * value) (l : list (N * (nat * value)))
  : list (N * (nat * value)) :=
  match l with
  | [] => [(i, x)]
  | (j, y) :: r =>
      if (i <? j)%N then (i, x) :: (j, y) :: r else (j, y) :: insert_index i x r
  end.

(** [Object.values(stats)]: the properties whose keys are array indices
    in ascending order of index, then the others in the order of their
    creation. *)
Definition values (st : stats) : list (nat * value) :=
  let indexed :=
    foldr (λ kx acc, match index_key kx.1 with
                     | Some i => insert_index i kx.2 acc
                     | None => acc
                     end) [] st in
  let named :=
    filter (λ kx, index_key kx.1 = None) st in
  (snd <$> indexed) ++ (snd <$> named).

(** [l.sort((a, b) => b.count - a.count)]: descending in [count], and
    stable, as [Array.prototype.sort] is. *)
Fixpoint insert_count (x : nat * value) (l : list (nat * value))
  : list (nat * value) :=
  match l with
  | [] => [x]
  | y :: r => if (x.1 <? y.1)%nat then y :: insert_count x r else x :: y :: r
  end.

Definition sort_by_count (l : list (nat * value)) : list (nat * value) :=
  foldr insert_count [] l.

(** The responses counted so far. *)
Definition total (st : stats) : nat := sum_list ((fst ∘ snd) <$> st).

(** Descending in [count]. *)
Definition descending (x y : nat * value) : Prop := (y.1 ≤ x.1)%nat.

Section Detail.
Context `{Platform}.

(** The callback of [getAgentStats]; [stats[msg.agent]] converts the
    agent to a property key.  Under an inherited name the test
    [!stats[key]] fails and the increment lands on the inherited member:
    [stats] gets no property. *)
Definition stats_step (st : stats) (msg : value) : outcome stats :=
  agent ← get_prop msg (u "agent");
  if truthy agent then
    type ← get_prop msg (u "type");
    if strict_eq type (VStr (u "agent_response")) then
      key ← ToString agent;
      if bool_decide (key ∈ object_prototype) then Returns st
      else Returns (bump key agent st)
    else Returns st
  else Returns st.

(** [getAgentStats()], on the [workflow] of the state: the entries
    [{ count, agent }] as pairs. *)
Definition getAgentStats (workflow : value) : outcome (list (nat * value)) :=
  messages ← get_optional workflow (u "messages");
  if negb (truthy messages) then Returns []
  else
    match messages with
    | VArr l => st ← forEach stats_step [] l; Returns (sort_by_count (values st))
    | _ => Throws
    end.

(** Whether the callback counts the message. *)
Definition counted (msg : value) : bool :=
  match get_prop msg (u "agent"), get_prop msg (u "type") with
  | Returns agent, Returns type =>
      truthy agent && strict_eq type (VStr (u "agent_response"))
      && match ToString agent with
         | Returns key => negb (bool_decide (key ∈ object_prototype))
         | Throws => false
         end
  | _, _ => false
  end.

(** The fetch of [/workflow.json] and the test on the identifiers of the
    mock record, inside their own [try]. *)
Definition mock_workflow (mock : remote) (id : jsstring) (workflow : value)
  : value :=
  let attempt :=
    mockData ← mock;
    i ← get_prop mockData (u "id");
    if strict_eq i (VStr id) then Returns mockData
    else
      w ← get_prop mockData (u "workflowId");
      if strict_eq w (VStr id) then Returns mockData else Returns workflow in
  match attempt with
  | Returns workflow' => workflow'
  | Throws => workflow
  end.

(** The log of line 297: it reads [workflow.id] and converts
    [workflow.messages?.length || 0] to a string. *)
Definition log_loaded (workflow : value) : outcome unit :=
  _ ← get_prop workflow (u "id");
  messages ← get_prop workflow (u "messages");
  len ← get_optional messages (u "length");
  _ ← ToString (js_or len (VNum (num_of_Z 0)));
  Returns ().

(** [fetchWorkflowDetail()] for the [id] of the route. *)
Definition fetchWorkflowDetail (st : storage) (r mock : remote) (id : jsstring)
    (s : state) : state :=
  let attempt :=
    let workflow := getWorkflow st r id in
    let workflow :=
      if negb (truthy workflow) then getFromLocalStorage st id else workflow in
    let workflow :=
      if negb (truthy workflow) then mock_workflow mock id workflow
      else workflow in
    if truthy workflow then
      _ ← log_loaded workflow;
      Returns (State workflow false VNull)
    else Returns (State (WorkflowDetail.workflow s) false
                    (VStr (u "Workflow not found"))) in
  match attempt with
  | Returns s' => s'
  | Throws =>
      State (WorkflowDetail.workflow s) false
        (VStr (u "Failed to load workflow details"))
  end.

End Detail.

End WorkflowDetail.

(** ** A reference [Platform]

    The built-ins as ECMAScript defines them, to run the code on concrete
    transcripts and stores.  Numbers are exact: a literal is not rounded
    to binary64 and never overflows to [Infinity]; a number prints in
    positional notation (no exponent form), a fraction with at most
    twenty digits.  [stringify] lists the properties of an object in the
    order of the map, not in insertion order, and copies a lone
    surrogate as it is. *)

Module Reference.

Definition is_digit (c : N) : bool := (48 <=? c) && (c <=? 57).

(** The leading decimal digits of [s], as their values, and the rest. *)
Fixpoint scan_digits (s : jsstring) : list N * jsstring :=
  match s with
  | c :: r =>
      if is_digit c
      then let '(ds, rest) := scan_digits r in ((c - 48) :: ds, rest)
      else ([], s)
  | [] => ([], [])
  end.

Definition digits_to_Z (ds : list N) : Z :=
  foldl (fun acc d => 10 * acc + Z.of_N d)%Z 0%Z ds.

(** [int.frac * 10^e], exactly. *)
Definition decimal_value (neg : bool) (int frac : list N) (e : Z) : Q :=
  let m := digits_to_Z (int ++ frac) in
  let m := if neg then (- m)%Z else m in
  let e := (e - Z.of_nat (length frac))%Z in
  if (0 <=? e)%Z
  then inject_Z (m * 10 ^ e)
  else Qmake m (Z.to_pos (10 ^ (- e))).

(** An optional exponent part [[eE][+-]?digits]; [None] when an [e] is
    followed by no digit. *)
Definition scan_exponent (s : jsstring) : option (Z * jsstring) :=
  match s with
  | c :: r =>
      if (c =? 101) || (c =? 69) then
        let '(neg, r') :=
          match r with
          | 45 :: r' => (true, r')
          | 43 :: r' => (false, r')
          | _ => (false, r)
          end in
        match scan_digits r' with
        | ([], _) => None
        | (ds, rest) =>
            Some (if neg then (- digits_to_Z ds)%Z else digits_to_Z ds, rest)
        end
      else Some (0%Z, s)
  | [] => Some (0%Z, [])
  end.

(** *** [JSON.parse] *)

Definition json_ws (c : N) : bool :=
  (c =? 32) || (c =? 9) || (c =? 10) || (c =? 13).

Fixpoint skip_ws (s : jsstring) : jsstring :=
  match s with
  | c :: r => if json_ws c then skip_ws r else s
  | [] => []
  end.

(** A JSON number: an optional minus, an integer part without leading
    zero, an optional fraction and an optional exponent. *)
Definition parse_number (s : jsstring) : option (number * jsstring) :=
  let '(neg, s1) := match s with 45 :: r => (true, r) | _ => (false, s) end in
  match scan_digits s1 with
  | ([], _) => None
  | (int, s2) =>
      if match int with 0 :: _ :: _ => true | _ => false end then None else
      let frac_part :=
        match s2 with
        | 46 :: r =>
            match scan_digits r with
            | ([], _) => None
            | (frac, s3) => Some (frac, s3)
            end
        | _ => Some ([], s2)
        end in
      '(frac, s3) ← frac_part;
      '(e, s4) ← scan_exponent s3;
      Some (Fin (decimal_value neg int frac e), s4)
  end.

Definition hex_value (c : N) : option N :=
  if is_digit c then Some (c - 48)
  else if (97 <=? c) && (c <=? 102) then Some (c - 87)
  else if (65 <=? c) && (c <=? 70) then Some (c - 55)
  else None.

(** The characters of a JSON string after its opening quote. *)
Fixpoint parse_string (s : jsstring) : option (jsstring * jsstring) :=
  match s with
  | [] => None
  | 34 :: r => Some ([], r)
  | 92 :: 117 :: a :: b :: c :: d :: r =>
      a ← hex_value a; b ← hex_value b; c ← hex_value c; d ← hex_value d;
      '(t, rest) ← parse_string r;
      Some ((4096 * a + 256 * b + 16 * c + d) :: t, rest)
  | 92 :: e :: r =>
      x ← (if e =? 34 then Some 34 else if e =? 92 then Some 92
           else if e =? 47 then Some 47 else if e =? 98 then Some 8
           else if e =? 102 then Some 12 else if e =? 110 then Some 10
           else if e =? 114 then Some 13 else if e =? 116 then Some 9
           else None);
      '(t, rest) ← parse_string r;
      Some (x :: t, rest)
  | c :: r =>
      if (c <? 32) || (c =? 92) then None
      else '(t, rest) ← parse_string r; Some (c :: t, rest)
  end.

Fixpoint parse_value (fuel : nat) (s : jsstring) : option (value * jsstring) :=
  match fuel with
  | O => None
  | S fuel =>
      match skip_ws s with
      | 123 :: r =>
          match skip_ws r with
          | 125 :: rest => Some (VObj ∅, rest)
          | r' => parse_members fuel ∅ r'
          end
      | 91 :: r =>
          match skip_ws r with
          | 93 :: rest => Some (VArr [], rest)
          | r' => parse_elements fuel [] r'
          end
      | 34 :: r => '(t, rest) ← parse_string r; Some (VStr t, rest)
      | s' =>
          match strip_prefix (u "true") s', strip_prefix (u "false") s',
                strip_prefix (u "null") s' with
          | Some rest, _, _ => Some (VBool true, rest)
          | _, Some rest, _ => Some (VBool false, rest)
          | _, _, Some rest => Some (VNull, rest)
          | _, _, _ => '(n, rest) ← parse_number s'; Some (VNum n, rest)
          end
      end
  end
with parse_elements (fuel : nat) (acc : list value) (s : jsstring)
  : option (value * jsstring) :=
  match fuel with
  | O => None
  | S fuel =>
      '(v, r) ← parse_value fuel s;
      match skip_ws r with
      | 44 :: r' => parse_elements fuel (acc ++ [v]) r'
      | 93 :: rest => Some (VArr (acc ++ [v]), rest)
      | _ => None
      end
  end
with parse_members (fuel : nat) (acc : gmap jsstring value) (s : jsstring)
  : option (value * jsstring) :=
  match fuel with
  | O => None
  | S fuel =>
      match skip_ws s with
      | 34 :: r =>
          '(k, r1) ← parse_string r;
          match skip_ws r1 with
          | 58 :: r2 =>
              '(v, r3) ← parse_value fuel r2;
              match skip_ws r3 with
              | 44 :: r4 => parse_members fuel (<[k := v]> acc) r4
              | 125 :: rest => Some (VObj (<[k := v]> acc), rest)
              | _ => None
              end
          | _ => None
          end
      | _ => None
      end
  end.

(** One value, with nothing but white space after it; a later binding of
    a repeated key replaces the earlier one. *)
Definition parse (s : jsstring) : option value :=
  '(v, rest) ← parse_value (2 * length s + 2) s;
  match skip_ws rest with [] => Some v | _ => None end.

(** *** [Number.prototype.toString], in positional notation *)

Fixpoint uint_units (d : Decimal.uint) : jsstring :=
  match d with
  | Decimal.Nil => []
  | Decimal.D0 r => 48 :: uint_units r
  | Decimal.D1 r => 49 :: uint_units r
  | Decimal.D2 r => 50 :: uint_units r
  | Decimal.D3 r => 51 :: uint_units r
  | Decimal.D4 r => 52 :: uint_units r
  | Decimal.D5 r => 53 :: uint_units r
  | Decimal.D6 r => 54 :: uint_units r
  | Decimal.D7 r => 55 :: uint_units r
  | Decimal.D8 r => 56 :: uint_units r
  | Decimal.D9 r => 57 :: uint_units r
  end.

Definition N_units (n : N) : jsstring := uint_units (N.to_uint n).

(** The digits after the point, by long division of [r / d], [r < d]. *)
Fixpoint frac_units (fuel : nat) (r d : Z) : jsstring :=
  match fuel with
  | O => []
  | S fuel =>
      if (r =? 0)%Z then []
      else Z.to_N (48 + 10 * r / d) :: frac_units fuel (10 * r mod d) d
  end.

Definition number_to_string (n : number) : jsstring :=
  match n with
  | NaN => u "NaN"
  | PosInf => u "Infinity"
  | NegInf => u "-Infinity"
  | Fin q =>
      let a := Z.abs (Qnum q) in
      let d := Z.pos (Qden q) in
      (if (Qnum q <? 0)%Z then u "-" else [])
      ++ N_units (Z.to_N (a / d))
      ++ (if (a mod d =? 0)%Z then [] else u "." ++ frac_units 20 (a mod d) d)
  end.

(** *** [Number(string)] *)

Fixpoint trim_start (s : jsstring) : jsstring :=
  match s with
  | c :: r => if is_space c then trim_start r else s
  | [] => []
  end.

Definition trim (s : jsstring) : jsstring :=
  rev (trim_start (rev (trim_start s))).

Fixpoint radix_value (radix : N) (acc : Z) (s : jsstring) : option Z :=
  match s with
  | [] => Some acc
  | c :: r =>
      d ← hex_value c;
      if d <? radix then radix_value radix (Z.of_N radix * acc + Z.of_N d)%Z r
      else None
  end.

Definition string_to_number (s : jsstring) : number :=
  let t := trim s in
  let signed :=
    match t with
    | 45 :: r => (true, r)
    | 43 :: r => (false, r)
    | _ => (false, t)
    end in
  match t with
  | [] => num_of_Z 0
  | 48 :: x :: (_ :: _) as r =>
      if (x =? 120) || (x =? 88) then from_option num_of_Z NaN (radix_value 16 0 r)
      else if (x =? 111) || (x =? 79) then from_option num_of_Z NaN (radix_value 8 0 r)
      else if (x =? 98) || (x =? 66) then from_option num_of_Z NaN (radix_value 2 0 r)
      else
        match scan_digits t with
        | (int, rest) =>
            let '(frac, rest) :=
              match rest with
              | 46 :: r' => scan_digits r'
              | _ => ([], rest)
              end in
            match scan_exponent rest with
            | Some (e, []) => Fin (decimal_value false int frac e)
            | _ => NaN
            end
        end
  | _ =>
      let '(neg, body) := signed in
      if bool_decide (body = u "Infinity") then (if neg then NegInf else PosInf)
      else
        let '(int, rest) := scan_digits body in
        let '(frac, rest', dot) :=
          match rest with
          | 46 :: r' => let '(f, r'') := scan_digits r' in (f, r'', true)
          | _ => ([], rest, false)
          end in
        match int, frac with
        | [], [] => NaN
        | _, _ =>
            match scan_exponent rest' with
            | Some (e, []) => Fin (decimal_value neg int frac e)
            | _ => NaN
            end
        end
  end.

(** *** [JSON.stringify] *)

Definition hex_unit (n : N) : N := if n <? 10 then 48 + n else 87 + n.

Fixpoint quote_units (s : jsstring) : jsstring :=
  match s with
  | [] => []
  | c :: r =>
      (if c =? 34 then [92; 34]
       else if c =? 92 then [92; 92]
       else if c =? 8 then [92; 98]
       else if c =? 12 then [92; 102]
       else if c =? 10 then [92; 110]
       else if c =? 13 then [92; 114]
       else if c =? 9 then [92; 116]
       else if c <? 32 then [92; 117; 48; 48; hex_unit (c / 16); hex_unit (c mod 16)]
       else [c]) ++ quote_units r
  end.

Definition quote (s : jsstring) : jsstring := 34 :: quote_units s ++ [34].

(** Compact output; the properties of an object in the order of the map,
    those holding [undefined] left out. *)
Fixpoint stringify (v : value) : jsstring :=
  match v with
  | VUndefined => u "undefined"
  | VNull => u "null"
  | VBool true => u "true"
  | VBool false => u "false"
  | VNum (Fin q) => number_to_string (Fin q)
  | VNum _ => u "null"
  | VStr s => quote s
  | VArr l =>
      91 :: (fix items (l : list value) : jsstring :=
               match l with
               | [] => []
               | x :: r =>
                   let e := match x with
                            | VUndefined => u "null"
                            | _ => stringify x
                            end in
                   match r with
                   | [] => e
                   | _ :: _ => e ++ 44 :: items r
                   end
               end) l ++ [93]
  | VObj o =>
      123 :: map_fold
               (fun k x acc =>
                  match x with
                  | VUndefined => acc
                  | _ =>
                      quote k ++ 58 :: stringify x
                      ++ match acc with [] => [] | _ => 44 :: acc end
                  end) [] o ++ [125]
  end.

#[global] Instance platform : Platform := {
  JSON_parse := parse;
  JSON_stringify := stringify;
  StringToNumber := string_to_number;
  NumberToString := number_to_string
}.

End Reference.

(** ** The section pages

    The seven pages that show one section each, and [CompanySnapshots].
    A page keeps what it loaded, [loading], and [error]: the message of
    what was thrown, here the thing thrown itself. *)

Module Pages.

(** What a page may catch: the failure of the fetch in
    [parseAnalystDataFile], or a TypeError, of the summary that
    [parseAnalystDataFile] logs or of the page itself. *)
Inductive failure :=
| FetchFailed (f : fetched)
| TypeError.

(** What [parseAnalystDataFile] threw, by what the fetch delivered:
    with the text in hand, only the summary throws. *)
Definition thrown (f : fetched) : failure :=
  match f with
  | Text _ => TypeError
  | _ => FetchFailed f
  end.

Record state := State { data : value; loading : bool; error : option failure }.

(** The guard before the content of a page:
    [!data || !data.slides || data.slides.length === 0]. *)
Definition no_data (data : value) : outcome bool :=
  if negb (truthy data) then Returns true
  else
    slides ← get_prop data (u "slides");
    if negb (truthy slides) then Returns true
    else
      len ← get_prop slides (u "length");
      Returns (strict_eq len (VNum (num_of_Z 0))).

Section Pages.
Context `{Platform}.

(** [fetchValuationData], [fetchHistoricalData], [fetchSwotData],
    [fetchRiskData] and [fetchThesisData]: [getSectionData(n)] for [n]
    from 4 to 8, then [setData]. *)
Definition fetchSectionData (sectionNumber : Z) (cachedData : option DataParser.data)
    (f : fetched) (s : state) : state * option DataParser.data :=
  match getSectionData cachedData f (VNum (num_of_Z sectionNumber)) with
  | (Returns sectionData, c) => (State sectionData false None, c)
  | (Throws, c) => (State (data s) false (Some (thrown f)), c)
  end.

(** [fetchNewsData] and [fetchFinancialData]:
    [allData.sections.section2] and [allData.sections.section3]. *)
Definition fetchSlot (key : string) (cachedData : option DataParser.data)
    (f : fetched) (s : state) : state * option DataParser.data :=
  match parseAnalystDataFile cachedData f with
  | (Returns allData, c) =>
      (State (slot (sections allData) (section_key key)) false None, c)
  | (Throws, c) => (State (data s) false (Some (thrown f)), c)
  end.

(** [slide.narrative?.part?.key || ""]. *)
Definition field (slide : value) (part key : string) : outcome value :=
  narrative ← get_prop slide (u "narrative");
  p ← get_optional narrative (u part);
  x ← get_optional p (u key);
  Returns (js_or x (VStr [])).

(** The callback of [data.slides.map] in [fetchCompanyData]. *)
Definition company (slide : value) : outcome value :=
  name ← get_prop slide (u "company");
  slide_id ← get_prop slide (u "slide_id");
  business_overview ← field slide "business_overview" "statement";
  business_overview_explanation ← field slide "business_overview" "explanation";
  business_model ← field slide "business_model" "statement";
  business_model_explanation ← field slide "business_model" "explanation";
  strategic_context ← field slide "strategic_context" "statement";
  strategic_context_explanation ← field slide "strategic_context" "explanation";
  Returns
    (VObj (<[u "name" := name]>
          (<[u "slide_id" := slide_id]>
          (<[u "color" := VStr (u "#0ea5e9")]>
          (<[u "business_overview" := business_overview]>
          (<[u "business_overview_explanation" := business_overview_explanation]>
          (<[u "business_model" := business_model]>
          (<[u "business_model_explanation" := business_model_explanation]>
          (<[u "strategic_context" := strategic_context]>
          (<[u "strategic_context_explanation" := strategic_context_explanation]>
             ∅)))))))))).

(** [fetchCompanyData] of [CompanySnapshots]: the [data] of the state
    is its [companies]. *)
Definition fetchCompanyData (cachedData : option DataParser.data) (f : fetched)
    (s : state) : state * option DataParser.data :=
  match parseAnalystDataFile cachedData f with
  | (Throws, c) => (State (data s) false (Some (thrown f)), c)
  | (Returns allData, c) =>
      let data := slot (sections allData) (section_key "1") in
      let attempt :=
        slides ← get_prop data (u "slides");
        match slides with
        | VArr l => companyData ← mapM company l; Returns (Some (VArr companyData))
        | _ => Returns None
        end in
      match attempt with
      | Returns (Some companyData) => (State companyData false None, c)
      | Returns None => (State (Pages.data s) false None, c)
      | Throws => (State (Pages.data s) false (Some TypeError), c)
      end
  end.

End Pages.

End Pages.

(** ** [AgentWorkflow]: the names of the agents *)

Module AgentWorkflow.

(** The object literal [mapping] of [mapAgentNameToVisualization]. *)
Definition mapping : gmap jsstring value :=
  list_to_map
    [ (u "Validator", VStr (u "Validator"));
      (u "QualityValidator", VStr (u "Validator"));
      (u "FinancialDocuments", VStr (u "FinancialDocumentsAgent"));
      (u "FinancialDocumentsAgent", VStr (u "FinancialDocumentsAgent"));
      (u "FinancialAnalyst", VStr (u "FinancialDocumentsAgent"));
      (u "PeerComparison", VStr (u "PeerComparisonAgent"));
      (u "PeerComparisonAgent", VStr (u "PeerComparisonAgent"));
      (u "PeerComparisonAnalyst", VStr (u "PeerComparisonAgent"));
      (u "NewsSentiment", VStr (u "NewsSentimentAgent"));
      (u "NewsSentimentAgent", VStr (u "NewsSentimentAgent"));
      (u "MarketInsightsAnalyst", VStr (u "NewsSentimentAgent"));
      (u "Valuation", VStr (u "PeerComparisonAgent"));
      (u "ValuationAgent", VStr (u "PeerComparisonAgent"));
      (u "InvestmentThesis", VNull);
      (u "InvestmentThesisAgent", VNull) ].

(** The [name] of the agents the view draws, the coordinator apart. *)
Definition drawn : list jsstring :=
  u <$> ["Validator"; "FinancialDocumentsAgent"; "PeerComparisonAgent";
         "NewsSentimentAgent"]%string.

(** What [mapping[key] || null] evaluates to: a value of the literal or
    [null], or, under a name [mapping] inherits from [Object.prototype],
    the inherited member, which is truthy. *)
Inductive looked_up :=
| Value (v : value)
| Member (key : jsstring).

(** [s.replace(/\s+/g, '')]. *)
Definition remove_spaces (s : jsstring) : jsstring :=
  filter (λ c, is_space c = false) s.

(** How the [i] flag compares with an ASCII letter of the pattern: the
    two cases of the letter match, and no other code unit. *)
Definition fold_case (c : N) : N :=
  if (65 <=? c) && (c <=? 90) then c + 32 else c.

(** [s.replace(/Agent$/i, '')]. *)
Definition remove_agent_suffix (s : jsstring) : jsstring :=
  let n := length s in
  if bool_decide (fold_case <$> drop (n - 5) s = u "agent")
  then take (n - 5) s
  else s.

(** [mapAgentNameToVisualization(agentName)]: a truthy [agentName] that
    is no string has no [replace], a TypeError. *)
Definition mapAgentNameToVisualization (agentName : value) : outcome looked_up :=
  if negb (truthy agentName) then Returns (Value VNull)
  else
    match agentName with
    | VStr s =>
        let normalized := Reference.trim (remove_spaces s) in
        let normalized := remove_agent_suffix normalized in
        match mapping !! normalized with
        | Some v => Returns (Value (js_or v VNull))
        | None =>
            if bool_decide (normalized ∈ WorkflowDetail.object_prototype)
            then Returns (Member normalized)
            else Returns (Value VNull)
        end
    | _ => Throws
    end.

(** The values of [mapping]. *)
Definition is_drawn (v : value) : bool :=
  match v with
  | VNull => true
  | VStr n => bool_decide (n ∈ drawn)
  | _ => false
  end.

End AgentWorkflow.


(** ** Sample transcripts and stores *)

Module Sample.

(** Two drafts of section 3, one after the other. *)
Definition draft1 : jsstring :=
  lit "{'section':3,'section_title':'Financials','slides':[]}".
Definition draft2 : jsstring :=
  lit "{'section':3,'section_title':'Financials v2','slides':[]}".
Definition two_drafts : jsstring :=
  lit "Section three, first draft\n```json\n" ++ draft1
  ++ lit "\n```\nrevised\n```json\n" ++ draft2 ++ lit "\n```\n".

Definition payload1 : value :=
  VObj (<[u "section" := VNum (num_of_Z 3)]>
          (<[u "section_title" := VStr (u "Financials")]>
             (<[u "slides" := VArr []]> ∅))).
Definition payload2 : value :=
  VObj (<[u "section" := VNum (num_of_Z 3)]>
          (<[u "section_title" := VStr (u "Financials v2")]>
             (<[u "slides" := VArr []]> ∅))).

Definition fractional_section : jsstring := lit "```\n{'section':2.5}\n```".


(** A validator template in the place of section 1: valid JSON that
    holds the sentinel; section 2 follows. *)
Definition template_body : jsstring :=
  lit "{'section':1,'note':'OUTPUT STRUCTURE','slides':[]}".
Definition with_template : jsstring :=
  lit "[FinancialDocumentsAgent] ```json\n" ++ template_body
  ++ lit "\n```\n```json\n{'section':2,'slides':[]}\n```".


(** Prose, a block without tag, prose, a block tagged [json], prose. *)
Definition parts : list (jsstring * fenced_block) :=
  [ (lit "Intro\n", Fenced [] [] (lit "{'section':2}"));
    (lit "\nthen ", Fenced (u "json") (u " ") (lit "{'section':3}")) ].

(** One operation of the service: the clock and [Math.random]. *)
Definition e0 : env :=
  Env (fun _ => lit "2025-01-15T10:30:00.000Z") (lit "0.k3j9x2abcd").
Definition id0 : jsstring := u "workflow-2025-01-15-k3j9x2".

(** An empty [localStorage] with room, and one without. *)
Definition st0 : storage := Storage 5000000 None.
Definition st_full : storage := Storage 64 None.
Definition st_null : storage := Storage 5000000 (Some (u "null")).

(** A [localStorage] whose entry is an object with a [length] that does
    not print. *)
Definition st_unprintable : storage :=
  Storage 5000000 (Some (lit "{'length':{'toString':1}}")).

(** The initial fields [startWorkflow] passes in [InvestmentThesis.js]. *)
Definition wd0 : gmap jsstring value :=
  <[u "status" := VStr (u "failed")]>
    (<[u "companies" :=
         VArr [VStr (u "Vodafone Idea"); VStr (u "Apollo Micro Systems")]]> ∅).

(** Initial fields with an [id], and with [messages], of their own. *)
Definition wd_id : gmap jsstring value := <[u "id" := VStr (u "draft-7")]> ∅.
Definition greeting : value := VObj (<[u "type" := VStr (u "system")]> ∅).
Definition wd_messages : gmap jsstring value :=
  <[u "messages" := VArr [greeting]]> ∅.

(** A message without [timestamp]. *)
Definition message0 : gmap jsstring value :=
  <[u "type" := VStr (u "system")]>
    (<[u "agent" := VStr (u "orchestrator")]>
       (<[u "message" := VStr (u "started")]> ∅)).

(** The store after [createWorkflow(wd0)] fell back to it, then after
    [addMessage], then after a second [createWorkflow] that draws the
    same identifier. *)
Definition st1 : storage :=
  Eval vm_compute in (@createWorkflow Reference.platform e0 st0 Throws wd0).2.
Definition st2 : storage :=
  Eval vm_compute in
    (@addMessage Reference.platform e0 st1 Throws id0 message0).2.
Definition st3 : storage :=
  Eval vm_compute in
    (@createWorkflow Reference.platform e0 st2 Throws wd0).2.



(** The record [createWorkflow(wd0)] stores. *)
Definition record0 : gmap jsstring value :=
  spread
    (<[u "id" := VStr id0]>
       (<[u "workflowId" := VStr id0]>
          (<[u "createdAt" := VStr (toISOString e0 1)]>
             (<[u "status" := VStr (u "in_progress")]>
                (<[u "messages" := VArr []]> ∅)))))
    wd0.


(** A second operation, on another day, and the record it stores behind
    the one of [st1]. *)
Definition e1 : env :=
  Env (fun _ => lit "2025-01-16T08:00:00.000Z") (lit "0.z9y8x7wvut").
Definition id1 : jsstring := u "workflow-2025-01-16-z9y8x7".
Definition st_two : storage :=
  Eval vm_compute in (@createWorkflow Reference.platform e1 st1 Throws wd0).2.
Definition record1 : gmap jsstring value :=
  spread
    (<[u "id" := VStr id1]>
       (<[u "workflowId" := VStr id1]>
          (<[u "createdAt" := VStr (toISOString e1 1)]>
             (<[u "status" := VStr (u "in_progress")]>
                (<[u "messages" := VArr []]> ∅)))))
    wd0.

(** The mock record of [/workflow.json], in short. *)
Definition demo : gmap jsstring value :=
  <[u "id" := VStr (u "workflow-demo")]>
    (<[u "workflowId" := VStr (u "workflow-demo")]>
       (<[u "status" := VStr (u "completed")]>
          (<[u "messages" := VArr []]> ∅))).

(** A reply of the backend with a record whose [messages] is an object
    with a [length] that does not print. *)
Definition unprintable_reply : value :=
  VObj (<[u "success" := VBool true]>
          (<[u "workflow" :=
               VObj (<[u "id" := VStr (u "workflow-2025-01-15-k3j9x2")]>
                       (<[u "messages" :=
                            VObj (<[u "length" :=
                                      VObj (<[u "toString" :=
                                                VNum (num_of_Z 1)]> ∅)]> ∅)]>
                          ∅))]> ∅)).

(** Agent responses: two for section 1, the second reporting it
    completed, then one for section 2. *)
Definition response (agent : string) (section : Z) (completed : bool) : value :=
  VObj (<[u "type" := VStr (u "agent_response")]>
          (<[u "agent" := VStr (u agent)]>
             (<[u "timestamp" := VStr (lit "2025-01-15T10:30:00.000Z")]>
                (<[u "data" :=
                     VObj (<[u "section" := VNum (num_of_Z section)]>
                             (<[u "completed" := VBool completed]> ∅))]> ∅)))).
Definition started : value :=
  VObj (<[u "type" := VStr (u "system")]>
          (<[u "agent" := VStr (u "System")]> ∅)).
Definition log1 : list value :=
  [started; response "Financial Analyst" 1 false].
Definition log2 : list value :=
  [started; response "Financial Analyst" 1 false;
   response "Financial Analyst" 1 true;
   response "Peer Comparison Analyst" 2 true;
   response "toString" 2 true].
Definition entry1 : WorkflowDetail.section_entry :=
  WorkflowDetail.SectionEntry (VNum (num_of_Z 1)) (VStr (u "Financial Analyst"))
    (u "in-progress") (VStr (lit "2025-01-15T10:30:00.000Z")).
Definition entry2 : WorkflowDetail.section_entry :=
  WorkflowDetail.SectionEntry (VNum (num_of_Z 2))
    (VStr (u "Peer Comparison Analyst"))
    (u "completed") (VStr (lit "2025-01-15T10:30:00.000Z")).

(** A block in another language and prose, then the two drafts of
    section 3, each in a block of its own. *)
Definition foreign_first : jsstring :=
  render (Fenced (u "python") [] (lit "print(1)")) ++ lit "\nprose\n"
  ++ render (Fenced (u "json") [] draft1) ++ lit "\n"
  ++ render (Fenced (u "json") [] draft2) ++ lit "\n".

(** Two blocks in another language, the second with a payload. *)
Definition foreign_twice : jsstring :=
  render (Fenced (u "python") [] (lit "print(1)")) ++ lit "\n"
  ++ render (Fenced (u "python") [] (lit "{'section':3,'slides':[]}")).


(** Section 3 with a title that does not print, as an integer-tagged
    payload. *)
Definition unprintable_section : jsstring :=
  render (Fenced (u "json") []
            (lit "{'section':3,'section_title':{'toString':1},'slides':[]}")).



(** A header as the validator writes it, before a payload. *)
Definition header : jsstring := lit "OUTPUT STRUCTURE\nSECTION: 2\n".
Definition after_brace : jsstring := lit "'section':2,'slides':[]}".

End Sample.

(** * Properties *)

(** ** The patterns *)

Section RegexFacts.

Lemma strip_prefix_spec w s r : strip_prefix w s = Some r ↔ s = w ++ r.
Proof.
  revert s. induction w as [|a w IH]; intros s; simpl.
  - split; [by intros [= ->]|by intros ->].
  - destruct s as [|b s]; [done|].
    destruct (N.eqb_spec a b) as [->|Hne].
    + rewrite IH. split; [by intros ->|by intros [= ->]].
    + split; [done|]. intros [= -> _]. done.
Qed.

Lemma strip_prefix_app w s : strip_prefix w (w ++ s) = Some s.
Proof. by apply strip_prefix_spec. Qed.

Lemma lit_shrinks {B} w (k : jsstring → option (B * jsstring)) n :
  shrinks k n → shrinks (lit_ w k) (n + length w).
Proof.
  intros Hk s b rest. unfold lit_.
  destruct (strip_prefix w s) as [r|] eqn:Hw; [|done].
  apply strip_prefix_spec in Hw as ->. intros ?%Hk.
  rewrite length_app. lia.
Qed.

Lemma opt_shrinks {B} w (k : jsstring → option (B * jsstring)) n :
  shrinks k n → shrinks (opt_ w k) n.
Proof.
  intros Hk s b rest. unfold opt_.
  destruct (lit_ w k s) as [r|] eqn:Hw.
  - intros [= ->]. apply (lit_shrinks w k n Hk) in Hw. lia.
  - apply Hk.
Qed.

Lemma star_greedy_shrinks {B} c (k : jsstring → option (B * jsstring)) n :
  shrinks k n → shrinks (star_greedy c k) n.
Proof.
  intros Hk s. induction s as [|a s IH]; intros b rest; simpl.
  - apply Hk.
  - destruct (c a); [|apply Hk].
    destruct (star_greedy c k s) as [[b' r']|] eqn:Hs; [|apply Hk].
    intros [= -> ->]. specialize (IH _ _ eq_refl). simpl. lia.
Qed.

Lemma capture_lazy_shrinks {B} c
    (k : jsstring → jsstring → option (B * jsstring)) n :
  (∀ body, shrinks (k body) n) → ∀ acc, shrinks (capture_lazy c k acc) n.
Proof.
  intros Hk acc s. revert acc.
  induction s as [|a s IH]; intros acc b rest; simpl.
  - destruct (k (rev acc) []) eqn:Hs; [|done]. intros [= ->]. by apply Hk in Hs.
  - destruct (k (rev acc) (a :: s)) eqn:Hs.
    + intros [= ->]. by apply Hk in Hs.
    + destruct (c a); [|done]. intros ?%IH. simpl. lia.
Qed.

(** A match of the [g] pattern is never empty. *)
Lemma allJsonBlocks_here_shrinks : shrinks allJsonBlocks_here 1.
Proof.
  intros s b rest Hm.
  assert (shrinks allJsonBlocks_here
            (0 + length closing + length [LF] + length fence)) as Hs.
  { unfold allJsonBlocks_here.
    apply lit_shrinks, opt_shrinks, star_greedy_shrinks, lit_shrinks.
    apply capture_lazy_shrinks. intros body. apply lit_shrinks.
    intros s' b' r' [= _ ->]. lia. }
  apply Hs in Hm. simpl in Hm. lia.
Qed.

Lemma matchAll_fuel_enough n m s :
  (length s < n)%nat → (length s < m)%nat →
  matchAll_fuel n s = matchAll_fuel m s.
Proof.
  revert m s. induction n as [|n IH]; intros m s Hn Hm; [lia|].
  destruct m as [|m]; [lia|]. simpl.
  destruct (allJsonBlocks_here s) as [[body rest]|] eqn:Hs.
  - apply allJsonBlocks_here_shrinks in Hs. f_equal. apply IH; lia.
  - destruct s as [|a s]; [done|]. simpl in *. apply IH; lia.
Qed.

(** The loop of [matchAll], without the fuel. *)
Lemma matchAll_unfold s :
  matchAll s =
  match allJsonBlocks_here s with
  | Some (body, rest) => body :: matchAll rest
  | None => match s with [] => [] | _ :: s' => matchAll s' end
  end.
Proof.
  unfold matchAll at 1. simpl.
  destruct (allJsonBlocks_here s) as [[body rest]|] eqn:Hs.
  - apply allJsonBlocks_here_shrinks in Hs. f_equal.
    apply matchAll_fuel_enough; lia.
  - destruct s as [|a s]; [done|]. apply matchAll_fuel_enough; simpl; lia.
Qed.

(** No match starts at a unit that is not a backtick. *)
Lemma allJsonBlocks_here_backtick a s :
  a ≠ backtick → allJsonBlocks_here (a :: s) = None.
Proof.
  intros Ha. unfold allJsonBlocks_here, lit_ at 1, fence. cbn [strip_prefix].
  destruct (N.eqb_spec backtick a); [congruence|done].
Qed.

Lemma matchAll_skip pre s :
  backtick ∉ pre → matchAll (pre ++ s) = matchAll s.
Proof.
  induction pre as [|a pre IH]; intros Hpre; [done|].
  simpl. rewrite matchAll_unfold, allJsonBlocks_here_backtick.
  - apply IH. intros ?. apply Hpre. by right.
  - intros ->. apply Hpre. by left.
Qed.

Lemma matchAll_prose tail : backtick ∉ tail → matchAll tail = [].
Proof.
  intros Ht. rewrite <- (app_nil_r tail), matchAll_skip; [|done].
  by rewrite matchAll_unfold.
Qed.

Lemma closing_not_here body post c :
  backtick ∉ c :: body →
  strip_prefix closing (c :: body ++ closing ++ post) = None.
Proof.
  intros Hb. unfold closing, fence. cbn [strip_prefix].
  destruct (N.eqb_spec LF c) as [_|]; [|done].
  destruct body as [|b1 body]; cbn [strip_prefix app]; [done|].
  destruct (N.eqb_spec backtick b1) as [Heq|]; [|done].
  exfalso. apply Hb. rewrite Heq. set_solver.
Qed.

Lemma capture_lazy_unfold {B} c (k : jsstring → jsstring → option B) acc s :
  capture_lazy c k acc s =
  match k (rev acc) s with
  | Some r => Some r
  | None =>
      match s with
      | a :: s' => if c a then capture_lazy c k (a :: acc) s' else None
      | [] => None
      end
  end.
Proof. by destruct s. Qed.

(** The lazy capture stops at the first closing fence: for a body
    without backticks, the one that follows it. *)
Lemma capture_closing body acc post :
  backtick ∉ body →
  capture_lazy any_unit
    (fun b => lit_ closing (fun rest => Some (b, rest))) acc
    (body ++ closing ++ post)
  = Some (rev acc ++ body, post).
Proof.
  revert acc. induction body as [|c body IH]; intros acc Hb;
    rewrite capture_lazy_unfold; unfold lit_ at 1.
  - rewrite app_nil_l, strip_prefix_app. by rewrite app_nil_r.
  - rewrite <- app_comm_cons, (closing_not_here body post c Hb).
    unfold any_unit at 1. rewrite IH.
    + simpl. by rewrite <- app_assoc.
    + intros ?. apply Hb. by right.
Qed.

(** Greedy white space before the line feed of the opening fence gives
    that line feed back when the body starts with something else. *)
Lemma star_greedy_opening {B} (k : jsstring → option B) ws c rest r :
  Forall (fun a => is_space a = true) ws → is_space c = false →
  k (c :: rest) = Some r →
  star_greedy is_space (lit_ [LF] k) (ws ++ LF :: c :: rest) = Some r.
Proof.
  intros Hws Hc Hk. induction Hws as [|a ws Ha _ IH].
  - cbn [app star_greedy]. change (is_space LF) with true. cbv iota.
    rewrite Hc. unfold lit_. cbn [strip_prefix].
    destruct (N.eqb_spec LF c) as [Heq|_]; [by rewrite <- Heq in Hc|].
    by rewrite N.eqb_refl.
  - cbn [app star_greedy]. by rewrite Ha, IH.
Qed.

Lemma allJsonBlocks_here_block b post :
  scannable b → allJsonBlocks_here (render b ++ post) = Some (body b, post).
Proof.
  destruct b as [t ws bd]. unfold scannable, render. cbn [tag padding body].
  intros (Htag & Hws & (c & rest & -> & Hc) & Hb).
  replace ((fence ++ t ++ ws ++ LF :: (c :: rest) ++ closing) ++ post)
    with (fence ++ t ++ ws ++ LF :: c :: rest ++ closing ++ post)
    by (by rewrite <- !app_assoc, <- !app_comm_cons, <- app_assoc).
  assert (star_greedy is_space
            (lit_ [LF]
               (capture_lazy any_unit
                  (fun b => lit_ closing (fun rest => Some (b, rest))) []))
            (ws ++ LF :: c :: rest ++ closing ++ post)
          = Some (c :: rest, post)) as Hk.
  { apply star_greedy_opening; [done..|].
    by rewrite (app_comm_cons rest), capture_closing. }
  unfold allJsonBlocks_here, lit_ at 1. rewrite strip_prefix_app.
  unfold opt_. destruct Htag as [->| ->].
  - rewrite app_nil_l. unfold lit_ at 1.
    assert (strip_prefix (u "json") (ws ++ LF :: c :: rest ++ closing ++ post)
            = None) as ->.
    { destruct ws as [|a ws]; [done|]. apply Forall_cons_1 in Hws as [Ha _].
      cbn [app]. change (u "json") with (106 :: u "son"). cbn [strip_prefix].
      destruct (N.eqb_spec 106 a) as [<-|]; done. }
    by rewrite Hk.
  - unfold lit_ at 1. rewrite strip_prefix_app. by rewrite Hk.
Qed.




Lemma matchAll_transcript parts tail :
  Forall (fun pb => (backtick ∉ pb.1) ∧ scannable pb.2) parts →
  backtick ∉ tail →
  matchAll (transcript parts tail) = (body ∘ snd) <$> parts.
Proof.
  intros Hparts Htail. induction Hparts as [|[prose b] parts [Hp Hb] _ IH].
  - by apply matchAll_prose.
  - cbn [transcript fst snd fmap list_fmap] in *.
    rewrite matchAll_skip, matchAll_unfold; [|done].
    by rewrite allJsonBlocks_here_block, IH.
Qed.



(** The lazy run before the fence stops at the first backtick. *)
Lemma star_lazy_skip {A} (k : jsstring → option A) w mid s :
  w ≠ [] → head w = Some backtick → backtick ∉ mid →
  star_lazy any_unit (lit_ w k) (mid ++ s) = star_lazy any_unit (lit_ w k) s.
Proof.
  intros Hw Hh Hm. induction mid as [|a mid IH]; [done|].
  cbn [app star_lazy]. unfold lit_ at 1.
  destruct w as [|b w]; [done|]. injection Hh as ->. cbn [strip_prefix].
  destruct (N.eqb_spec backtick a) as [<-|_]; [exfalso; apply Hm; by left|].
  unfold any_unit at 1. apply IH. intros ?. apply Hm. by right.
Qed.






End RegexFacts.

(** ** The extractor *)

Section DataParserFacts.
Context `{Platform}.

Lemma extract_section1_payload txt s :
  extract_section1 txt s =
  match section1_payload txt with
  | Some v => <[section_key "1" := v]> s
  | None => s
  end.
Proof.
  unfold extract_section1, section1_payload.
  destruct (section1Match txt) as [jsonText|]; cbn; [|done].
  destruct (includes jsonText sentinel); cbn; [done|].
  destruct (JSON_parse jsonText) as [parsed|]; cbn; [|done].
  destruct (get_prop parsed (u "section")) as [s'|]; [|done].
  by destruct (strict_eq s' _).
Qed.

Lemma scan_block_candidate s b :
  scan_block s b =
  match candidate b with
  | Some (K, v) => if truthy (slot s K) then s else <[K := v]> s
  | None => s
  end.
Proof.
  unfold scan_block, candidate.
  destruct (indexOf b 123) as [i|]; cbn; [|done].
  destruct (JSON_parse (substring b i)) as [parsed|]; cbn; [|done].
  destruct (get_prop parsed (u "section")) as [sn|]; cbn; [|done].
  destruct (section_in_range sn) as [[]|]; cbn; [|done..].
  destruct (ToString sn) as [printed|]; cbn; [|done].
  by destruct (truthy (slot s _)).
Qed.

(** The range test passes on the values that read as a number from 2
    to 8. *)
Lemma section_in_range_passes sn :
  section_in_range sn = Returns true ↔
  ∃ n, ToNumber sn = Returns n ∧ in_range n = true.
Proof.
  unfold section_in_range, js_ge, js_le, in_range.
  destruct (ToNumber sn) as [n|]; cbn [mbind outcome_bind];
    [|split; [done|by intros (n & ? & _)]].
  destruct (num_leb (num_of_Z 2) n) eqn:Hlo.
  - split.
    + intros [= Hhi]. exists n. by rewrite Hlo, Hhi.
    + intros (n' & [= <-] & Hr). rewrite Hlo in Hr. simpl in Hr. by rewrite Hr.
  - split; [done|]. intros (n' & [= <-] & Hr). by rewrite Hlo in Hr.
Qed.

(** What a payload went through. *)
Lemma candidate_passed b K v :
  candidate b = Some (K, v) ↔
  ∃ i sn printed,
    indexOf b 123 = Some i
    ∧ JSON_parse (substring b i) = Some v
    ∧ get_prop v (u "section") = Returns sn
    ∧ section_in_range sn = Returns true
    ∧ ToString sn = Returns printed
    ∧ K = u "section" ++ printed.
Proof.
  unfold candidate. split.
  - intros Hc.
    destruct (indexOf b 123) as [i|] eqn:Hi; [|done].
    cbn [mbind option_bind] in Hc.
    destruct (JSON_parse (substring b i)) as [parsed|] eqn:Hj; [|done].
    cbn [mbind option_bind] in Hc.
    destruct (get_prop parsed (u "section")) as [sn|] eqn:Hs; [|done].
    cbn [mbind outcome_bind] in Hc.
    destruct (section_in_range sn) as [[]|] eqn:Hr; [|done..].
    cbn [mbind outcome_bind] in Hc.
    destruct (ToString sn) as [printed|] eqn:Hp; [|done].
    injection Hc as <- <-. by exists i, sn, printed.
  - intros (i & sn & printed & -> & Hp & Hs & Hr & Hk & ->).
    cbn [mbind option_bind]. rewrite Hp. cbn [mbind option_bind].
    rewrite Hs. cbn [mbind outcome_bind]. rewrite Hr.
    cbn [mbind outcome_bind]. by rewrite Hk.
Qed.

(** Only an object has a [section] that is not [undefined]. *)
Lemma get_section_object v x :
  get_prop v (u "section") = Returns x → x ≠ VUndefined → ∃ o, v = VObj o.
Proof.
  destruct v as [| |b|n|s|l|o]; simpl; try done; try (by intros [= <-]).
  eauto.
Qed.

Lemma candidate_object b K v : candidate b = Some (K, v) → ∃ o, v = VObj o.
Proof.
  intros (i & sn & printed & _ & _ & Hs & Hr & _)%candidate_passed.
  apply (get_section_object _ sn); [done|].
  intros ->. by vm_compute in Hr.
Qed.

Lemma candidate_truthy b K v : candidate b = Some (K, v) → truthy v = true.
Proof. intros [o ->]%candidate_object. done. Qed.

(** One step of the loop leaves a filled slot as it is. *)
Lemma scan_block_filled s b K :
  truthy (slot s K) = true → slot (scan_block s b) K = slot s K.
Proof.
  intros HK. rewrite scan_block_candidate.
  destruct (candidate b) as [[K' v]|]; [|done].
  destruct (truthy (slot s K')) eqn:HK'; [done|].
  unfold slot. rewrite lookup_insert_ne; [done|].
  intros ->. congruence.
Qed.

Lemma scan_blocks_filled bs s K :
  truthy (slot s K) = true → slot (foldl scan_block s bs) K = slot s K.
Proof.
  revert s. induction bs as [|b bs IH]; intros s HK; [done|].
  simpl. rewrite IH; rewrite scan_block_filled; done.
Qed.

(** One step of the loop leaves alone the slots the match is not for. *)
Lemma scan_block_other s b K :
  ¬ claims b K → slot (scan_block s b) K = slot s K.
Proof.
  intros HK. rewrite scan_block_candidate.
  destruct (candidate b) as [[K' v]|] eqn:Hc; [|done].
  destruct (truthy (slot s K')); [done|].
  unfold slot. rewrite lookup_insert_ne; [done|].
  intros ->. apply HK. by exists v.
Qed.

Lemma scan_blocks_other bs s K :
  (∀ b, b ∈ bs → ¬ claims b K) → slot (foldl scan_block s bs) K = slot s K.
Proof.
  revert s. induction bs as [|b bs IH]; intros s HK; [done|].
  simpl. rewrite IH.
  - apply scan_block_other, HK. by left.
  - intros b' Hb'. apply HK. by right.
Qed.


(** The first match for an empty slot fills it. *)
Lemma scan_block_fills s b K v :
  candidate b = Some (K, v) → truthy (slot s K) = false →
  slot (scan_block s b) K = v.
Proof.
  intros Hc HK. rewrite scan_block_candidate, Hc, HK.
  unfold slot. by rewrite lookup_insert_eq.
Qed.

Lemma scan_blocks_first pre b post s K v :
  (∀ b', b' ∈ pre → ¬ claims b' K) →
  candidate b = Some (K, v) → truthy (slot s K) = false →
  slot (foldl scan_block s (pre ++ b :: post)) K = v.
Proof.
  intros Hpre Hc HK. rewrite foldl_app. simpl.
  assert (slot (scan_block (foldl scan_block s pre) b) K = v) as Hv.
  { apply scan_block_fills; [done|]. by rewrite scan_blocks_other. }
  rewrite scan_blocks_filled; rewrite Hv; [done|].
  by eapply candidate_truthy.
Qed.

(** The first pass writes [section1] and nothing else. *)
Lemma extract_section1_other txt K :
  K ∈ scanned_keys → slot (extract_section1 txt empty_sections) K = VNull.
Proof.
  intros HK. rewrite extract_section1_payload.
  assert (slot empty_sections K = VNull ∧ K ≠ section_key "1") as [H0 Hne].
  { unfold scanned_keys in HK. simpl in HK.
    repeat (apply elem_of_cons in HK as [->|HK]; [by vm_compute|]).
    by apply elem_of_nil in HK. }
  destruct (section1_payload txt); [|done].
  unfold slot in *. by rewrite lookup_insert_ne.
Qed.


(** No value that passes the range test prints as [1]. *)
Lemma candidate_not_section1 b v :
  (∀ n, in_range n = true → NumberToString n ≠ u "1") →
  in_range (StringToNumber (u "1")) = false →
  candidate b ≠ Some (section_key "1", v).
Proof.
  intros HA HB (i & sn & printed & _ & _ & _ & Hr & Hp & Hk)%candidate_passed.
  apply section_in_range_passes in Hr as (n & Hn & Hr).
  apply app_inv_head in Hk. subst printed.
  destruct sn as [| |[]|m|s|l|o]; try (by vm_compute in Hp).
  - injection Hp as Hp. injection Hn as ->. by apply (HA n).
  - injection Hp as ->. injection Hn as <-. congruence.
  - unfold ToNumber in Hn. rewrite Hp in Hn. injection Hn as <-. congruence.
  - simpl in Hp. by destruct (o !! u "toString").
Qed.

Lemma scan_blocks_section1 bs s :
  (∀ n, in_range n = true → NumberToString n ≠ u "1") →
  in_range (StringToNumber (u "1")) = false →
  slot (foldl scan_block s bs) (section_key "1") = slot s (section_key "1").
Proof.
  intros HA HB. apply scan_blocks_other. intros b _ [v Hv].
  by apply candidate_not_section1 in Hv.
Qed.

(** After the loop every slot some match is a payload for is filled. *)
Lemma scan_blocks_claimed bs s b K v :
  b ∈ bs → candidate b = Some (K, v) →
  truthy (slot (foldl scan_block s bs) K) = true.
Proof.
  revert s. induction bs as [|a bs IH]; intros s Hin Hc.
  - by apply elem_of_nil in Hin.
  - apply elem_of_cons in Hin as [->|Hin]; simpl; [|by apply IH].
    assert (truthy (slot (scan_block s a) K) = true) as Ht.
    { destruct (truthy (slot s K)) eqn:Hs.
      - by rewrite scan_block_filled.
      - rewrite (scan_block_fills s a K v); [|done..].
        by eapply candidate_truthy. }
    by rewrite scan_blocks_filled.
Qed.

Lemma scan_blocks_fixed bs r :
  (∀ b K v, b ∈ bs → candidate b = Some (K, v) → truthy (slot r K) = true) →
  foldl scan_block r bs = r.
Proof.
  induction bs as [|a bs IH]; intros Hr; [done|]. simpl.
  assert (scan_block r a = r) as ->.
  { rewrite scan_block_candidate.
    destruct (candidate a) as [[K v]|] eqn:Hc; [|done].
    rewrite (Hr a K v); [done| by left | done]. }
  apply IH. intros b K v Hb. apply Hr. by right.
Qed.

(** X1. Running the loop once more, over the document it produced,
    changes nothing: every slot a match could fill is filled already. *)
Theorem rescan_changes_nothing txt :
  foldl scan_block (extract txt) (matchAll txt) = extract txt.
Proof.
  apply scan_blocks_fixed. intros b K v Hb Hc.
  unfold extract. by eapply scan_blocks_claimed.
Qed.


Lemma mapM_returns {A B} (f : A → outcome B) l :
  (∃ k, mapM f l = Returns k) ↔ Forall (λ x, ∃ y, f x = Returns y) l.
Proof.
  induction l as [|x l IH]; cbn [mapM]; [split; [done|by eexists]|].
  rewrite Forall_cons, <- IH. destruct (f x) as [y|]; cbn [mbind outcome_bind].
  - destruct (mapM f l) as [k|]; cbn [mbind outcome_bind].
    + split; [eauto|by eexists].
    + split; [by intros [? ?]|by intros (_ & ? & ?)].
  - split; [by intros [? ?]|by intros ([? ?] & _)].
Qed.

(** The summary is logged without a throw exactly when every line is. *)
Lemma log_summary_returns s :
  log_summary s = Returns ()
  ↔ map_Forall (λ _ section, summary_line section = Returns ()) s.
Proof.
  rewrite map_Forall_to_list. unfold log_summary.
  assert (Forall (uncurry (λ (_ : jsstring) section,
                             summary_line section = Returns ()))
            (map_to_list s)
          ↔ Forall (λ x, ∃ y, summary_line x = Returns y) (map_to_list s).*2)
    as ->.
  { rewrite Forall_fmap. apply Forall_proper; [|done].
    intros [k v]. simpl. split; [eauto|by intros [[] ?]]. }
  rewrite <- mapM_returns.
  destruct (mapM _ _) as [k|]; cbn [mbind outcome_bind];
    [split; [eauto|done]|split; [done|by intros [? ?]]].
Qed.

Lemma mapM_throws {A B} (f : A → outcome B) l :
  mapM f l = Throws → ∃ x, x ∈ l ∧ f x = Throws.
Proof.
  induction l as [|x l IH]; cbn [mapM]; [done|].
  destruct (f x) as [y|] eqn:Hx; cbn [mbind outcome_bind].
  - destruct (mapM f l) as [k|]; cbn [mbind outcome_bind]; [done|].
    intros _. destruct (IH eq_refl) as (x' & Hin & Hx').
    exists x'. split; [by right|done].
  - intros _. exists x. split; [by left|done].
Qed.

Lemma log_summary_throws s :
  log_summary s = Throws
  ↔ ∃ K section, s !! K = Some section ∧ summary_line section = Throws.
Proof.
  split.
  - unfold log_summary.
    destruct (mapM _ _) as [k|] eqn:Hm; cbn [mbind outcome_bind]; [done|].
    intros _. apply mapM_throws in Hm as (v & Hin & Hv).
    apply list_elem_of_fmap in Hin as ([K v'] & -> & Hin).
    apply elem_of_map_to_list in Hin. by exists K, v'.
  - intros (K & v & HK & Hv).
    destruct (log_summary s) as [[]|] eqn:Hl; [|done].
    apply log_summary_returns in Hl. specialize (Hl K v HK). simpl in Hl.
    congruence.
Qed.

(** A line of the summary throws on a payload whose [section_title]
    is truthy and does not print. *)
Lemma summary_line_throws section :
  summary_line section = Throws
  ↔ ∃ title, truthy section = true
             ∧ get_prop section (u "section_title") = Returns title
             ∧ truthy title = true ∧ ToString title = Throws.
Proof.
  unfold summary_line. destruct (truthy section) eqn:Hs.
  2:{ split; [done|]. by intros (t & ? & _). }
  destruct (get_prop section (u "section_title")) as [title|] eqn:Ht.
  2:{ destruct section; done. }
  cbn [mbind outcome_bind]. unfold js_or.
  destruct (truthy title) eqn:Htt.
  - destruct (ToString title) eqn:Hp; cbn [mbind outcome_bind].
    + split; [done|]. intros (t & _ & [= <-] & _ & ?). congruence.
    + split; [by exists title|done].
  - split; [done|]. intros (t & _ & [= <-] & ? & _). congruence.
Qed.


(** The first call that gets the text: the document is cached, and
    returned unless the summary throws. *)
Lemma parseAnalystDataFile_text txt :
  parseAnalystDataFile None (Text txt)
  = (match log_summary (extract txt) with
     | Returns _ => Returns (Data (extract txt))
     | Throws => Throws
     end, Some (Data (extract txt))).
Proof.
  unfold parseAnalystDataFile. by destruct (log_summary (extract txt)).
Qed.

Lemma cache_after_filled c d f : cache_after c (Some d) f = Some d.
Proof.
  destruct c as [|n]; [done|]. unfold cache_after, getSectionData. done.
Qed.

Lemma cache_after_all_filled cs d : cache_after_all cs (Some d) = Some d.
Proof.
  induction cs as [|[c f] cs IH]; [done|].
  unfold cache_after_all in *. simpl. by rewrite cache_after_filled.
Qed.

(** The first match of the scan that is a payload for a slot among
    [section2] .. [section8] is the one stored. *)
Lemma first_match_wins txt pre b post K v :
  matchAll txt = pre ++ b :: post →
  K ∈ scanned_keys →
  candidate b = Some (K, v) →
  (∀ b', b' ∈ pre → ¬ claims b' K) →
  slot (extract txt) K = v.
Proof.
  intros Hm HK Hc Hpre. unfold extract. rewrite Hm.
  apply scan_blocks_first; [done..|].
  by rewrite extract_section1_other.
Qed.

(** C2, as the code has it. In a transcript made of prose without
    backticks and of fenced blocks whose tag is [json] or missing, each
    body free of backticks and starting with something else than white
    space: when two blocks carry payloads for the same slot among
    [section2] .. [section8] and no earlier block does, extraction
    stores the payload of the first and drops the later one, whatever
    else follows; and asking again answers, from the cache, with the
    same payload in that slot. *)
Theorem first_block_wins parts tail pre B1 mid B2 post K v1 v2 :
  let txt := transcript parts tail in
  Forall (fun pb => (backtick ∉ pb.1) ∧ scannable pb.2) parts →
  backtick ∉ tail →
  parts = pre ++ B1 :: mid ++ B2 :: post →
  K ∈ scanned_keys →
  candidate (body B1.2) = Some (K, v1) →
  candidate (body B2.2) = Some (K, v2) →
  (∀ B, B ∈ pre → ¬ claims (body B.2) K) →
  slot (extract txt) K = v1
  ∧ ∀ f, ∃ d,
      parseAnalystDataFile (parseAnalystDataFile None (Text txt)).2 f
        = (Returns d, Some d)
      ∧ slot (sections d) K = v1.
Proof.
  intros txt Hparts Htail Hp HK H1 _ Hpre.
  assert (slot (extract txt) K = v1) as Hv.
  { apply (first_match_wins txt ((body ∘ snd) <$> pre) (body B1.2)
             ((body ∘ snd) <$> (mid ++ B2 :: post))); [|done..|].
    - unfold txt. rewrite matchAll_transcript by done.
      by rewrite Hp, fmap_app, fmap_cons.
    - intros b' (B & -> & HB)%list_elem_of_fmap. by apply Hpre. }
  split; [done|]. intros f. rewrite parseAnalystDataFile_text.
  by eexists.
Qed.



(** C8, as the code has it. After a first successful parse the document
    is cached: whatever calls follow, and whatever their fetches would
    deliver, [cachedData] stays that document and every call answers
    from it, [getSectionData] with the slot under the key its argument
    prints to.  Nothing the module exports empties [cachedData]. *)
Theorem cache_is_permanent txt cs f n :
  let c := (parseAnalystDataFile None (Text txt)).2 in
  c = Some (Data (extract txt))
  ∧ cache_after_all cs c = c
  ∧ parseAnalystDataFile (cache_after_all cs c) f
    = (Returns (Data (extract txt)), c)
  ∧ getSectionData (cache_after_all cs c) f n
    = (printed ← ToString n;
       Returns (slot (extract txt) (u "section" ++ printed)), c).
Proof.
  rewrite parseAnalystDataFile_text. cbn [snd].
  rewrite cache_after_all_filled. done.
Qed.


End DataParserFacts.

(** ** The workflow store *)

Section ServiceFacts.
Context `{Platform}.

Lemma id_matches w workflowId i :
  get_prop w (u "id") = Returns i → strict_eq i (VStr workflowId) = true →
  has_id w workflowId.
Proof.
  intros Hg He. destruct i; try done. simpl in He.
  apply bool_decide_eq_true in He as ->.
  destruct w as [| |b|n|s'|l|o]; simpl in Hg; try done.
  exists o. split; [done|]. destruct (o !! u "id"); simpl in Hg; congruence.
Qed.

Lemma has_id_matches w workflowId :
  has_id w workflowId →
  get_prop w (u "id") = Returns (VStr workflowId)
  ∧ strict_eq (VStr workflowId) (VStr workflowId) = true.
Proof.
  intros (o & -> & Ho). simpl. rewrite Ho. split; [done|].
  by apply bool_decide_eq_true.
Qed.


(** What [find] returns is [undefined] or a record with the [id]. *)
Lemma find_id_found ws workflowId w :
  find_id ws workflowId = Returns w → w = VUndefined ∨ has_id w workflowId.
Proof.
  induction ws as [|x ws IH]; simpl; [intros [= <-]; by left|].
  destruct (get_prop x (u "id")) as [i|] eqn:Hg; [|done].
  destruct (strict_eq i (VStr workflowId)) eqn:He; [|done].
  intros [= <-]. right. by eapply id_matches.
Qed.


(** Replacing the found record by one with the same [id] makes the
    replacement the one that is found. *)
Lemma find_id_insert ws workflowId i w' :
  findIndex_id ws workflowId = Returns (Some i) → has_id w' workflowId →
  find_id (<[i := w']> ws) workflowId = Returns w'.
Proof.
  intros Hi [Hg He]%has_id_matches. revert i Hi.
  induction ws as [|x ws IH]; intros i; simpl; [done|].
  destruct (get_prop x (u "id")) as [v|] eqn:Hx; [|done].
  destruct (strict_eq v (VStr workflowId)) eqn:Hv.
  - intros [= <-]. simpl. by rewrite Hg, He.
  - destruct (findIndex_id ws workflowId) as [[j|]|]; try done.
    intros [= <-]. simpl. rewrite Hx, Hv. by apply IH.
Qed.

(** A record pushed behind records with other identifiers is found. *)
Lemma find_id_snoc ws workflowId doc :
  find_id ws workflowId = Returns VUndefined → has_id doc workflowId →
  find_id (ws ++ [doc]) workflowId = Returns doc.
Proof.
  intros Hf [Hg He]%has_id_matches.
  induction ws as [|x ws IH]; cbn [app find_id] in *; [by rewrite Hg, He|].
  destruct (get_prop x (u "id")) as [v|] eqn:Hx; [|done].
  destruct (strict_eq v (VStr workflowId)) eqn:Hv; [|by apply IH].
  injection Hf as ->. by destruct v.
Qed.

Lemma setItem_fits st s :
  N.of_nat (length s) ≤ quota st →
  setItem st s = Returns (Storage (quota st) (Some s)).
Proof.
  intros Hq. unfold setItem. by apply N.leb_le in Hq as ->.
Qed.

Lemma getAll_written q v :
  round_trips v →
  getAllFromLocalStorage (Storage q (Some (JSON_stringify v))) = v.
Proof.
  intros [Hne Hrt]. unfold getAllFromLocalStorage. simpl. rewrite Hrt.
  by destruct (JSON_stringify v).
Qed.

Lemma getFromLocalStorage_find st ws workflowId w :
  getAllFromLocalStorage st = VArr ws → find_id ws workflowId = Returns w →
  getFromLocalStorage st workflowId = w.
Proof. intros Hs Hf. unfold getFromLocalStorage. by rewrite Hs, Hf. Qed.

(** Reading a property throws on [null] and [undefined] only. *)
Lemma get_prop_returns x k :
  x ≠ VNull → x ≠ VUndefined → ∃ i, get_prop x k = Returns i.
Proof.
  destruct x as [| |b|n|s|l|o]; try done; intros _ _; simpl; eauto;
    destruct (bool_decide _); eauto.
Qed.

(** [find] passes over what can be read and does not carry the [id]. *)
Lemma find_id_passes pre ws workflowId :
  Forall (λ x, x ≠ VNull ∧ x ≠ VUndefined ∧ ¬ has_id x workflowId) pre →
  find_id (pre ++ ws) workflowId = find_id ws workflowId.
Proof.
  induction 1 as [|x pre (Hn & Hu & Hx) _ IH]; [done|]. cbn [app find_id].
  destruct (get_prop_returns x (u "id") Hn Hu) as [i Hi]. rewrite Hi.
  destruct (strict_eq i (VStr workflowId)) eqn:He; [|done].
  destruct Hx. by eapply id_matches.
Qed.

(** X3. The lookup in [localStorage] answers with the first record of
    the stored array that carries the identifier as its [id]; with
    [undefined] when no record does; and with [null] when the entry is
    no array, or holds a [null] before any record with the identifier.
    It answers nothing else. *)
Theorem getFromLocalStorage_answers st workflowId :
  let passed x := x ≠ VNull ∧ x ≠ VUndefined ∧ ¬ has_id x workflowId in
  (∀ pre w post,
     getAllFromLocalStorage st = VArr (pre ++ w :: post) →
     Forall passed pre →
     (has_id w workflowId → getFromLocalStorage st workflowId = w)
     ∧ (w = VNull → getFromLocalStorage st workflowId = VNull))
  ∧ (∀ ws, getAllFromLocalStorage st = VArr ws → Forall passed ws →
           getFromLocalStorage st workflowId = VUndefined)
  ∧ ((∀ ws, getAllFromLocalStorage st ≠ VArr ws) →
     getFromLocalStorage st workflowId = VNull)
  ∧ (getFromLocalStorage st workflowId = VNull
     ∨ getFromLocalStorage st workflowId = VUndefined
     ∨ has_id (getFromLocalStorage st workflowId) workflowId).
Proof.
  intros passed. unfold getFromLocalStorage. split; [|split; [|split]].
  - intros pre w post -> Hpre. rewrite find_id_passes by done. split.
    + intros [Hg He]%has_id_matches. cbn [find_id]. by rewrite Hg, He.
    + by intros ->.
  - intros ws -> Hws. rewrite <- (app_nil_r ws), find_id_passes by done.
    done.
  - intros Hno. destruct (getAllFromLocalStorage st) as [| | | | |ws|]; try done.
    by destruct (Hno ws).
  - destruct (getAllFromLocalStorage st) as [| | | | |ws|]; try by left.
    destruct (find_id ws workflowId) as [w|] eqn:Hf; [|by left].
    right. by apply find_id_found in Hf.
Qed.

Lemma getWorkflow_fallback st r workflowId :
  succeeded r = Throws →
  getWorkflow st r workflowId = getFromLocalStorage st workflowId.
Proof. intros Hr. unfold getWorkflow. by rewrite Hr. Qed.

Lemma updateInLocalStorage_written st ws workflowId i w' :
  getAllFromLocalStorage st = VArr ws →
  findIndex_id ws workflowId = Returns (Some i) →
  N.of_nat (length (JSON_stringify (VArr (<[i := w']> ws)))) ≤ quota st →
  updateInLocalStorage st workflowId w'
  = Storage (quota st) (Some (JSON_stringify (VArr (<[i := w']> ws)))).
Proof.
  intros Hs Hi Hq. unfold updateInLocalStorage. rewrite Hs, Hi.
  by rewrite setItem_fits.
Qed.

(** The properties of the stored document: the caller's, then the
    synthesized ones. *)
Lemma new_document_lookup e workflowId wd k :
  get_prop (new_document e workflowId wd) k
  = Returns (default
               (default VUndefined
                  (<[u "id" := VStr workflowId]>
                     (<[u "workflowId" := VStr workflowId]>
                        (<[u "createdAt" := VStr (toISOString e 1)]>
                           (<[u "status" := VStr (u "in_progress")]>
                              (<[u "messages" := VArr []]>
                                 (∅ : gmap jsstring value)))))
                   !! k))
               (wd !! k)).
Proof.
  unfold new_document, spread. simpl. rewrite lookup_union.
  destruct (wd !! k) as [v|]; simpl.
  - by rewrite union_Some_l.
  - by rewrite (left_id_L None _).
Qed.

Lemma new_document_has_id e workflowId wd :
  wd !! u "id" = None → has_id (new_document e workflowId wd) workflowId.
Proof.
  intros Hid. eexists. split; [done|]. unfold spread.
  rewrite lookup_union_r; [|done]. by rewrite lookup_insert_eq.
Qed.

Lemma saveToLocalStorage_written e st wd ws :
  getAllFromLocalStorage st = VArr ws →
  N.of_nat
    (length (JSON_stringify
               (VArr (ws ++ [new_document e (generateWorkflowId e 0) wd]))))
  ≤ quota st →
  saveToLocalStorage e st wd
  = (VStr (generateWorkflowId e 0),
     Storage (quota st)
       (Some (JSON_stringify
                (VArr (ws ++ [new_document e (generateWorkflowId e 0) wd]))))).
Proof.
  intros Hs Hq. unfold saveToLocalStorage. rewrite Hs. simpl.
  by rewrite setItem_fits.
Qed.

Lemma createWorkflow_fallback e st r wd :
  succeeded r = Throws →
  createWorkflow e st r wd =
  let '(workflowId, st') := saveToLocalStorage e st wd in
  match get_prop (getAllFromLocalStorage st') (u "length") with
  | Returns _ => (Returns (Created workflowId VUndefined), st')
  | Throws => (Throws, st')
  end.
Proof. intros Hr. unfold createWorkflow. rewrite Hr. done. Qed.

(** With the backend's blessing, the answer is the backend's. *)
Lemma createWorkflow_remote e st r wd result :
  succeeded r = Returns result →
  ∃ workflowId workflow,
    get_prop result (u "workflowId") = Returns workflowId
    ∧ get_prop result (u "workflow") = Returns workflow
    ∧ createWorkflow e st r wd = (Returns (Created workflowId workflow), st).
Proof.
  intros Hr. unfold createWorkflow. rewrite Hr. simpl.
  unfold succeeded in Hr. destruct r as [res|]; [|done]. simpl in Hr.
  destruct (get_prop res (u "success")) as [s|] eqn:Hs; [|done]. simpl in Hr.
  destruct (truthy s); [|done]. injection Hr as ->.
  destruct result; try done; simpl; eauto.
Qed.

(** The fallback of [createWorkflow], when the write goes through. *)
Lemma createWorkflow_local e st r wd ws :
  succeeded r = Throws →
  getAllFromLocalStorage st = VArr ws →
  N.of_nat
    (length (JSON_stringify
               (VArr (ws ++ [new_document e (generateWorkflowId e 0) wd]))))
  ≤ quota st →
  round_trips (VArr (ws ++ [new_document e (generateWorkflowId e 0) wd])) →
  createWorkflow e st r wd
  = (Returns (Created (VStr (generateWorkflowId e 0)) VUndefined),
     Storage (quota st)
       (Some (JSON_stringify
                (VArr (ws ++ [new_document e (generateWorkflowId e 0) wd]))))).
Proof.
  intros Hr Hs Hq Hrt.
  rewrite createWorkflow_fallback, (saveToLocalStorage_written e st wd ws);
    [|done..].
  by rewrite getAll_written.
Qed.


(** C1, as the code has it. When the backend reports success,
    [createWorkflow] answers with the backend's [workflowId].  When the
    remote call fails, the stored entry is missing or holds an array,
    [localStorage] takes the new entry and the entry reads back, it
    answers with the identifier made locally, [workflow-], the date, a
    dash and six units of the random string: not empty. *)
Theorem createWorkflow_local_identifier e st r wd ws :
  let workflowId := generateWorkflowId e 0 in
  let written := VArr (ws ++ [new_document e workflowId wd]) in
  succeeded r = Throws →
  getAllFromLocalStorage st = VArr ws →
  N.of_nat (length (JSON_stringify written)) ≤ quota st →
  round_trips written →
  createWorkflow e st r wd
  = (Returns (Created (VStr workflowId) VUndefined),
     Storage (quota st) (Some (JSON_stringify written)))
  ∧ workflowId
    = u "workflow-" ++ split_head (toISOString e 0) 84 ++ u "-"
      ++ substring2 (random36 e) 2 8
  ∧ workflowId ≠ []
  ∧ ∀ r0 result,
      succeeded r0 = Returns result →
      ∃ workflowId0 workflow0,
        get_prop result (u "workflowId") = Returns workflowId0
        ∧ get_prop result (u "workflow") = Returns workflow0
        ∧ createWorkflow e st r0 wd
          = (Returns (Created workflowId0 workflow0), st).
Proof.
  intros workflowId written Hr Hs Hq Hrt.
  split; [by apply createWorkflow_local|].
  split; [done|]. split; [done|].
  intros r0 result. apply createWorkflow_remote.
Qed.


(** C6, as the code has it. For initial fields that bring neither an
    [id] nor [messages], with the backend failing, a store that holds no
    record under the new identifier yet, and a write that goes through:
    [getWorkflow] with the identifier [createWorkflow] returned gives a
    record whose [id] is that identifier and whose [messages] is the
    empty array. *)
Theorem getWorkflow_after_createWorkflow e st r r' wd ws :
  let workflowId := generateWorkflowId e 0 in
  let written := VArr (ws ++ [new_document e workflowId wd]) in
  succeeded r = Throws → succeeded r' = Throws →
  wd !! u "id" = None → wd !! u "messages" = None →
  getAllFromLocalStorage st = VArr ws →
  find_id ws workflowId = Returns VUndefined →
  N.of_nat (length (JSON_stringify written)) ≤ quota st →
  round_trips written →
  ∃ st' record,
    createWorkflow e st r wd
    = (Returns (Created (VStr workflowId) VUndefined), st')
    ∧ getWorkflow st' r' workflowId = record
    ∧ get_prop record (u "id") = Returns (VStr workflowId)
    ∧ get_prop record (u "messages") = Returns (VArr []).
Proof.
  intros workflowId written Hr Hr' Hid Hms Hs Hfresh Hq Hrt.
  eexists _, _. split; [by apply (createWorkflow_local e st r wd ws)|].
  split; [done|].
  rewrite getWorkflow_fallback; [|done].
  erewrite getFromLocalStorage_find;
    [|by apply getAll_written|by apply find_id_snoc, new_document_has_id].
  rewrite !new_document_lookup, Hid, Hms. done.
Qed.



End ServiceFacts.

(** ** The patterns at work *)

Section CaptureFacts.


(** What a match hands to the capture: every combinator before it
    passes the result of its continuation on. *)
Lemma lit_passes {B} w (k : jsstring → option B) s r :
  lit_ w k s = Some r → ∃ s', k s' = Some r.
Proof. unfold lit_. destruct (strip_prefix w s); [eauto|done]. Qed.

Lemma opt_passes {B} w (k : jsstring → option B) s r :
  opt_ w k s = Some r → ∃ s', k s' = Some r.
Proof.
  unfold opt_. destruct (lit_ w k s) eqn:Hl; [|eauto].
  intros [= <-]. by eapply lit_passes.
Qed.

Lemma star_greedy_passes {B} c (k : jsstring → option B) s r :
  star_greedy c k s = Some r → ∃ s', k s' = Some r.
Proof.
  induction s as [|a s IH]; simpl; [eauto|].
  destruct (c a); [|eauto].
  destruct (star_greedy c k s) eqn:Hs; [|eauto].
  intros [= <-]. by apply IH.
Qed.

(** The lazy capture ends at the first closing fence. *)
Lemma capture_lazy_first acc s b rest :
  capture_lazy any_unit
    (fun b => lit_ closing (fun rest => Some (b, rest))) acc s
  = Some (b, rest) →
  ∃ consumed,
    b = rev acc ++ consumed ∧ s = consumed ++ closing ++ rest
    ∧ ∀ i, (i < length consumed)%nat → strip_prefix closing (drop i s) = None.
Proof.
  revert acc. induction s as [|a s IH]; intros acc;
    rewrite capture_lazy_unfold; unfold lit_ at 1.
  - destruct (strip_prefix closing []) eqn:Hc; [done|done].
  - destruct (strip_prefix closing (a :: s)) as [r|] eqn:Hc.
    + intros [= <- <-]. exists []. rewrite app_nil_r. split; [done|].
      split; [by apply strip_prefix_spec in Hc|]. simpl. lia.
    + unfold any_unit at 1. intros (consumed & -> & -> & Hfirst)%IH.
      exists (a :: consumed). split; [simpl; by rewrite <- app_assoc|].
      split; [done|]. intros [|i] Hi; [done|]. apply Hfirst. simpl in Hi. lia.
Qed.

Lemma includes_none s w :
  (∀ i, strip_prefix w (drop i s) = None) → includes s w = false.
Proof.
  induction s as [|a s IH]; intros Hs;
    pose proof (Hs 0%nat) as H0; rewrite drop_0 in H0;
    cbn [includes]; rewrite H0; [done|].
  apply IH. intros i. apply (Hs (S i)).
Qed.

Lemma strip_prefix_longer w s t r :
  strip_prefix w s = Some r → strip_prefix w (s ++ t) = Some (r ++ t).
Proof.
  intros ->%strip_prefix_spec. rewrite <- app_assoc. apply strip_prefix_app.
Qed.

(** Every match of the scan is a match at some place of the text. *)
Lemma matchAll_elem n s body :
  (length s < n)%nat → body ∈ matchAll s →
  ∃ s' rest, allJsonBlocks_here s' = Some (body, rest).
Proof.
  revert s. induction n as [|n IH]; intros s Hn; [lia|].
  rewrite matchAll_unfold.
  destruct (allJsonBlocks_here s) as [[b rest]|] eqn:Hs.
  - intros [->|Hin]%elem_of_cons; [eauto|].
    apply allJsonBlocks_here_shrinks in Hs. apply (IH rest); [lia|done].
  - destruct s as [|a s]; [by intros ?%elem_of_nil|].
    apply IH. simpl in Hn. lia.
Qed.

(** X8. The text a match of the scan captures never holds a closing
    fence, that is a line feed followed by three backticks: the lazy
    capture ends at the first one, so that a payload with such a line
    inside is cut short there. *)
Theorem captured_body_has_no_closing txt body :
  body ∈ matchAll txt → includes body closing = false.
Proof.
  intros (s & rest & Hs)%(matchAll_elem (S (length txt))); [|lia].
  unfold allJsonBlocks_here in Hs.
  apply lit_passes in Hs as [s1 Hs]. apply opt_passes in Hs as [s2 Hs].
  apply star_greedy_passes in Hs as [s3 Hs]. apply lit_passes in Hs as [s4 Hs].
  apply capture_lazy_first in Hs as (consumed & -> & -> & Hfirst).
  rewrite app_nil_l. apply includes_none. intros i.
  destruct (strip_prefix closing (drop i consumed)) as [r|] eqn:Hc; [|done].
  assert (i < length consumed)%nat as Hi.
  { apply strip_prefix_spec in Hc. apply (f_equal length) in Hc.
    rewrite length_drop, length_app in Hc. simpl in Hc. lia. }
  specialize (Hfirst i Hi). rewrite drop_app_le in Hfirst by lia.
  by rewrite (strip_prefix_longer _ _ _ r Hc) in Hfirst.
Qed.

End CaptureFacts.

(** ** The document, slot by slot *)

Section SlotFacts.
Context `{Platform}.

(** X5. Among [section2] .. [section8], a slot of the document is
    [null] exactly when no match of the scan is a payload for it. *)
Theorem slot_null_iff_unclaimed txt K :
  K ∈ scanned_keys →
  slot (extract txt) K = VNull ↔ ∀ b, b ∈ matchAll txt → ¬ claims b K.
Proof.
  intros HK. unfold extract. split.
  - intros Hnull b Hb [v Hv].
    pose proof (scan_blocks_claimed (matchAll txt)
                  (extract_section1 txt empty_sections) b K v Hb Hv) as Ht.
    by rewrite Hnull in Ht.
  - intros Hno. rewrite scan_blocks_other; [|done].
    by apply extract_section1_other.
Qed.

(** X6. [section1] is filled by the dedicated pattern or not at all:
    it holds what the first pass stored, and [null] when that stored
    nothing, whatever the fenced blocks of the transcript hold.  The
    two hypotheses on the platform say that no number between 2 and 8
    prints as [1] and that the string [1] does not read as such a
    number. *)
Theorem section1_only_from_first_pass txt :
  (∀ n, in_range n = true → NumberToString n ≠ u "1") →
  in_range (StringToNumber (u "1")) = false →
  slot (extract txt) (section_key "1") = default VNull (section1_payload txt).
Proof.
  intros HA HB. unfold extract. rewrite scan_blocks_section1; [|done..].
  rewrite extract_section1_payload.
  destruct (section1_payload txt); [|done].
  unfold slot. by rewrite lookup_insert_eq.
Qed.

(** A payload is an object, and so not [undefined]. *)
Lemma slot_lookup s K v : slot s K = v → truthy v = true → s !! K = Some v.
Proof.
  unfold slot. destruct (s !! K); simpl; [by intros ->|]. by intros <-.
Qed.

Lemma extract_section1_unlisted txt K :
  K ∉ all_keys → slot (extract_section1 txt empty_sections) K = VUndefined.
Proof.
  intros HK. rewrite extract_section1_payload.
  assert (empty_sections !! K = None) as Hnone.
  { unfold empty_sections. unfold all_keys, scanned_keys in HK. simpl in HK.
    repeat (rewrite lookup_insert_ne; [|intros <-; apply HK; set_solver]).
    done. }
  unfold slot. destruct (section1_payload txt).
  - rewrite lookup_insert_ne; [by rewrite Hnone|].
    intros <-. apply HK. by left.
  - by rewrite Hnone.
Qed.

(** X4. The keys of the document are not confined to [section1] ..
    [section8]: a match that passes the range test under another key
    (a section that is no integer, say) is stored under that key, the
    first such match winning as for the eight slots. *)
Theorem unlisted_key_is_stored txt pre b post K v :
  matchAll txt = pre ++ b :: post →
  candidate b = Some (K, v) →
  (∀ b', b' ∈ pre → ¬ claims b' K) →
  K ∉ all_keys →
  extract txt !! K = Some v.
Proof.
  intros Hm Hc Hpre HK. apply slot_lookup; [|by eapply candidate_truthy].
  unfold extract. rewrite Hm. apply scan_blocks_first; [done..|].
  by rewrite extract_section1_unlisted.
Qed.

Lemma indexOf_app_first header c rest :
  c ∉ header → indexOf (header ++ c :: rest) c = Some (length header).
Proof.
  induction header as [|a header IH]; intros Hc; simpl.
  - by rewrite N.eqb_refl.
  - destruct (N.eqb_spec a c) as [->|_]; [exfalso; apply Hc; by left|].
    rewrite IH; [done|]. intros ?. apply Hc. by right.
Qed.

(** X9. The loop over all blocks does not look at what comes before
    the first brace of a match: a header, be it the sentinel of a
    validator template, changes nothing to what the loop makes of the
    match. *)
Theorem header_is_stripped header rest sections :
  123 ∉ header →
  candidate (header ++ 123 :: rest) = candidate (123 :: rest)
  ∧ scan_block sections (header ++ 123 :: rest)
    = scan_block sections (123 :: rest).
Proof.
  intros Hh.
  assert (candidate (header ++ 123 :: rest) = candidate (123 :: rest)) as Hc.
  { unfold candidate. rewrite indexOf_app_first by done.
    cbn [indexOf]. rewrite N.eqb_refl. cbn [mbind option_bind].
    unfold substring. by rewrite drop_app_length. }
  split; [done|]. by rewrite !scan_block_candidate, Hc.
Qed.

End SlotFacts.

(** ** The store, record by record *)

Section StoreFacts.
Context `{Platform}.

(** A record that is found stays found when records are pushed behind. *)
Lemma find_id_app_found ws l workflowId w :
  find_id ws workflowId = Returns w → w ≠ VUndefined →
  find_id (ws ++ l) workflowId = Returns w.
Proof.
  intros Hf Hw. induction ws as [|x ws IH]; simpl in *; [congruence|].
  destruct (get_prop x (u "id")) as [v|]; [|done].
  destruct (strict_eq v (VStr workflowId)); [done|]. by apply IH.
Qed.

(** Two identifiers are matched by no one [id]. *)
Lemma strict_eq_other v a b :
  strict_eq v (VStr a) = true → a ≠ b → strict_eq v (VStr b) = false.
Proof.
  destruct v; try done. simpl. intros ->%bool_decide_eq_true Hne.
  by apply bool_decide_eq_false.
Qed.

(** Replacing the record found under one identifier shows in no lookup
    under another. *)
Lemma find_id_insert_other ws workflowId i w' other :
  findIndex_id ws workflowId = Returns (Some i) → has_id w' workflowId →
  other ≠ workflowId →
  find_id (<[i := w']> ws) other = find_id ws other.
Proof.
  intros Hi [Hg He]%has_id_matches Hne. revert i Hi.
  induction ws as [|x ws IH]; intros i; simpl; [done|].
  destruct (get_prop x (u "id")) as [v|] eqn:Hx; [|done].
  destruct (strict_eq v (VStr workflowId)) eqn:Hv.
  - intros [= <-]. simpl. rewrite Hg.
    by rewrite (strict_eq_other _ workflowId other He),
      (strict_eq_other v workflowId other).
  - destruct (findIndex_id ws workflowId) as [[j|]|]; try done.
    intros [= <-]. simpl. rewrite Hx.
    destruct (strict_eq v (VStr other)); [done|]. by apply IH.
Qed.

Lemma findIndex_none ws workflowId :
  findIndex_id ws workflowId = Returns None →
  find_id ws workflowId = Returns VUndefined.
Proof.
  induction ws as [|x ws IH]; simpl; [done|].
  destruct (get_prop x (u "id")) as [v|]; [|done].
  destruct (strict_eq v (VStr workflowId)); [done|].
  destruct (findIndex_id ws workflowId) as [[j|]|]; try done.
Qed.

(** [find] finds a record exactly where [findIndex] finds its place. *)
Lemma find_findIndex ws workflowId w :
  find_id ws workflowId = Returns w → w ≠ VUndefined →
  ∃ i, findIndex_id ws workflowId = Returns (Some i) ∧ ws !! i = Some w.
Proof.
  intros Hf Hw. induction ws as [|x ws IH]; simpl in *; [congruence|].
  destruct (get_prop x (u "id")) as [v|]; [|done].
  destruct (strict_eq v (VStr workflowId)).
  - injection Hf as ->. by exists 0%nat.
  - destruct (IH Hf) as (i & -> & Hi). by exists (S i).
Qed.


Lemma getFromLocalStorage_written q ws workflowId :
  round_trips (VArr ws) →
  getFromLocalStorage (Storage q (Some (JSON_stringify (VArr ws)))) workflowId
  = match find_id ws workflowId with Returns w => w | Throws => VNull end.
Proof.
  intros Hrt. unfold getFromLocalStorage. by rewrite getAll_written.
Qed.


(** X14. [updateInLocalStorage] replaces the one record it finds: the
    replacement is what the next lookup under the identifier returns,
    every lookup under another identifier answers as before, and the
    entry holds as many records as it did. *)
Theorem updateInLocalStorage_replaces_one st ws workflowId i updatedWorkflow :
  let written := VArr (<[i := updatedWorkflow]> ws) in
  let st' := updateInLocalStorage st workflowId updatedWorkflow in
  getAllFromLocalStorage st = VArr ws →
  findIndex_id ws workflowId = Returns (Some i) →
  has_id updatedWorkflow workflowId →
  N.of_nat (length (JSON_stringify written)) ≤ quota st →
  round_trips written →
  getFromLocalStorage st' workflowId = updatedWorkflow
  ∧ (∀ other, other ≠ workflowId →
       getFromLocalStorage st' other = getFromLocalStorage st other)
  ∧ ∃ ws', getAllFromLocalStorage st' = VArr ws' ∧ length ws' = length ws.
Proof.
  intros written st' Hs Hi Hid Hq Hrt.
  assert (st' = Storage (quota st) (Some (JSON_stringify written))) as ->
    by by apply updateInLocalStorage_written.
  unfold written in *. split; [|split].
  - rewrite getFromLocalStorage_written; [|done]. by rewrite find_id_insert.
  - intros other Hne. rewrite getFromLocalStorage_written; [|done].
    rewrite (find_id_insert_other ws workflowId); [|done..].
    unfold getFromLocalStorage. by rewrite Hs.
  - exists (<[i := updatedWorkflow]> ws). split; [by apply getAll_written|].
    by rewrite length_insert.
Qed.

(** X15. When [createWorkflow] falls back to [localStorage] and the write
    goes through, the new record is pushed behind the records already
    there: the listing of the fallback is the old one with the new
    record at its end, and every record that a lookup found before is
    found as before, also under the identifier just drawn. *)
Theorem createWorkflow_appends e st r wd ws :
  let doc := new_document e (generateWorkflowId e 0) wd in
  let st' := (createWorkflow e st r wd).2 in
  succeeded r = Throws →
  getAllFromLocalStorage st = VArr ws →
  N.of_nat (length (JSON_stringify (VArr (ws ++ [doc])))) ≤ quota st →
  round_trips (VArr (ws ++ [doc])) →
  getAllWorkflows st' Throws = Returns (VArr (ws ++ [doc]))
  ∧ ∀ workflowId w,
      getFromLocalStorage st workflowId = w → truthy w = true →
      getFromLocalStorage st' workflowId = w.
Proof.
  intros doc st' Hr Hs Hq Hrt.
  assert (st' = Storage (quota st) (Some (JSON_stringify (VArr (ws ++ [doc])))))
    as -> by (unfold st'; by rewrite (createWorkflow_local e st r wd ws)).
  split.
  - unfold getAllWorkflows. cbn [mbind outcome_bind].
    by rewrite getAll_written.
  - intros workflowId w Hw Ht. rewrite getFromLocalStorage_written; [|done].
    unfold getFromLocalStorage in Hw. rewrite Hs in Hw.
    destruct (find_id ws workflowId) as [w0|] eqn:Hf; [|by subst w].
    subst w0. rewrite (find_id_app_found ws [doc] workflowId w); [done..|].
    by intros ->.
Qed.

(** X16. With the backend failing, an identifier under which the lookup
    finds nothing makes [addMessage] and [updateWorkflowStatus] answer
    "not found" and leave [localStorage] as it is; after
    [clearLocalStorage] that is so for every identifier. *)
Theorem unknown_identifier_changes_nothing e st r workflowId message status :
  succeeded r = Throws →
  (truthy (getFromLocalStorage st workflowId) = false →
   addMessage e st r workflowId message = (Returns WorkflowNotFound, st)
   ∧ updateWorkflowStatus e st r workflowId status
     = (Returns WorkflowNotFound, st))
  ∧ getFromLocalStorage (clearLocalStorage st) workflowId = VUndefined
  ∧ getAllWorkflows (clearLocalStorage st) Throws = Returns (VArr []).
Proof.
  intros Hr. split; [|done].
  intros Hf. unfold addMessage, updateWorkflowStatus. by rewrite Hr, Hf.
Qed.



End StoreFacts.

(** ** The workflow pages *)

Section WorkflowPages.
Context `{Platform}.
Import WorkflowDetail.

(** Reading a property off a truthy value does not throw. *)
Lemma get_prop_truthy v k : truthy v = true → ∃ x, get_prop v k = Returns x.
Proof.
  destruct v as [| |b|n|s|l|o]; try done; intros _; simpl; eauto;
    destruct (bool_decide _); eauto.
Qed.

Lemma get_optional_returns v k : ∃ x, get_optional v k = Returns x.
Proof.
  destruct v as [| |b|n|s|l|o]; simpl; eauto; destruct (bool_decide _); eauto.
Qed.

(** The log of a truthy record throws exactly when the [length] of its
    [messages] is truthy and does not print. *)
Lemma log_loaded_throws w :
  truthy w = true →
  log_loaded w = Throws
  ↔ ∃ messages len,
      get_prop w (u "messages") = Returns messages
      ∧ get_optional messages (u "length") = Returns len
      ∧ truthy len = true ∧ ToString len = Throws.
Proof.
  intros Hw. unfold log_loaded.
  destruct (get_prop_truthy w (u "id") Hw) as [x ->].
  destruct (get_prop_truthy w (u "messages") Hw) as [m ->].
  destruct (get_optional_returns m (u "length")) as [len Hlen].
  cbn [mbind outcome_bind]. rewrite Hlen.
  cbn [mbind outcome_bind]. unfold js_or.
  destruct (truthy len) eqn:Ht.
  - destruct (ToString len) as [p|] eqn:Hp; cbn [mbind outcome_bind].
    + split; [done|]. intros (m' & len' & [= <-] & Hl' & _ & Hp').
      rewrite Hlen in Hl'. injection Hl' as <-. congruence.
    + split; [by exists m, len|done].
  - split; [done|]. intros (m' & len' & [= <-] & Hl' & Ht' & _).
    rewrite Hlen in Hl'. injection Hl' as <-. congruence.
Qed.

(** The [length] of an array or of a string prints. *)
Lemma log_loaded_array o :
  (∀ m, o !! u "messages" = Some m → ∃ ms, m = VArr ms) →
  log_loaded (VObj o) = Returns ().
Proof.
  intros Hm. unfold log_loaded. cbn [get_prop mbind outcome_bind].
  destruct (o !! u "messages") as [m|]; [|done].
  destruct (Hm m eq_refl) as [ms ->]. cbn [from_option id get_optional].
  unfold get_prop. rewrite bool_decide_eq_true_2 by done.
  cbn [mbind outcome_bind]. unfold js_or.
  by destruct (truthy _).
Qed.

(** The mock record is taken when one of its identifiers is the one
    asked for, and only then. *)
Lemma mock_workflow_matches o id w :
  o !! u "id" = Some (VStr id) ∨ o !! u "workflowId" = Some (VStr id) →
  WorkflowDetail.mock_workflow (Returns (VObj o)) id w = VObj o.
Proof.
  intros Hm. unfold WorkflowDetail.mock_workflow. cbn.
  destruct Hm as [Hm|Hm].
  - rewrite Hm. cbn. by rewrite bool_decide_eq_true_2.
  - destruct (strict_eq (default VUndefined (o !! u "id")) (VStr id)); [done|].
    rewrite Hm. cbn. by rewrite bool_decide_eq_true_2.
Qed.

Lemma strict_eq_string v s : strict_eq v (VStr s) = true → v = VStr s.
Proof.
  destruct v; try done. simpl. by intros ->%bool_decide_eq_true.
Qed.

(** Only an object has a property under a key that is neither [length]
    nor an index. *)
Lemma get_prop_own m k x :
  array_index k = None → k ≠ u "length" →
  get_prop m k = Returns x → x ≠ VUndefined →
  ∃ o, m = VObj o ∧ o !! k = Some x.
Proof.
  intros Hi Hk.
  destruct m as [| |b|n|s|l|o]; simpl; try done; try (by intros [= <-]).
  - rewrite bool_decide_eq_false_2, Hi by done. by intros [= <-].
  - rewrite bool_decide_eq_false_2, Hi by done. by intros [= <-].
  - intros [= <-] Hx. exists o. split; [done|]. by destruct (o !! k).
Qed.

Lemma mock_workflow_other mock id w :
  (∀ o, mock = Returns (VObj o) →
        o !! u "id" ≠ Some (VStr id) ∧ o !! u "workflowId" ≠ Some (VStr id)) →
  WorkflowDetail.mock_workflow mock id w = w.
Proof.
  intros Hm. unfold WorkflowDetail.mock_workflow.
  destruct mock as [m|]; [|done]. cbn.
  destruct (get_prop m (u "id")) as [i|] eqn:Hi; [|done]. cbn.
  destruct (strict_eq i (VStr id)) eqn:Hei.
  - apply strict_eq_string in Hei as ->.
    apply get_prop_own in Hi as (o & -> & Ho); [|done..].
    by destruct (Hm o eq_refl).
  - destruct (get_prop m (u "workflowId")) as [x|] eqn:Hx; [|done]. cbn.
    destruct (strict_eq x (VStr id)) eqn:Hex; [|done].
    apply strict_eq_string in Hex as ->.
    apply get_prop_own in Hx as (o & -> & Ho); [|done..].
    by destruct (Hm o eq_refl).
Qed.

(** X19. [fetchWorkflowDetail] always settles with [loading] off.  It
    takes the first record it gets from, in turn, [getWorkflow], the
    lookup in [localStorage], and the mock record when that carries the
    identifier asked for as its [id] or [workflowId]; with none of the
    three it reports "Workflow not found" and leaves the record shown
    as it was.  The record it takes is shown unless the line that logs
    it throws, which happens exactly when the [length] of its
    [messages] is truthy and does not print: the page then reports
    "Failed to load workflow details".  A record whose [messages] is an
    array, or missing, is always shown. *)
Theorem fetchWorkflowDetail_tiers st r mock id s :
  let s' := WorkflowDetail.fetchWorkflowDetail st r mock id s in
  let found := getWorkflow st r id in
  let stored := getFromLocalStorage st id in
  let shown w :=
    match log_loaded w with
    | Returns _ => WorkflowDetail.State w false VNull
    | Throws =>
        WorkflowDetail.State (WorkflowDetail.workflow s) false
          (VStr (u "Failed to load workflow details"))
    end in
  WorkflowDetail.loading s' = false
  ∧ (truthy found = true → s' = shown found)
  ∧ (truthy found = false → truthy stored = true → s' = shown stored)
  ∧ (truthy found = false → truthy stored = false →
     (∀ o, mock = Returns (VObj o) →
           o !! u "id" = Some (VStr id) ∨ o !! u "workflowId" = Some (VStr id) →
           s' = shown (VObj o))
     ∧ ((∀ o, mock = Returns (VObj o) →
              o !! u "id" ≠ Some (VStr id)
              ∧ o !! u "workflowId" ≠ Some (VStr id)) →
        s' = WorkflowDetail.State (WorkflowDetail.workflow s) false
               (VStr (u "Workflow not found"))))
  ∧ (∀ w, truthy w = true →
          log_loaded w = Throws
          ↔ ∃ messages len,
              get_prop w (u "messages") = Returns messages
              ∧ get_optional messages (u "length") = Returns len
              ∧ truthy len = true ∧ ToString len = Throws)
  ∧ (∀ o, (∀ m, o !! u "messages" = Some m → ∃ ms, m = VArr ms) →
          log_loaded (VObj o) = Returns ()).
Proof.
  intros s' found stored shown.
  assert (∀ w,
            match (_ ← log_loaded w;
                   Returns (WorkflowDetail.State w false VNull)) with
            | Returns s0 => s0
            | Throws =>
                WorkflowDetail.State (WorkflowDetail.workflow s) false
                  (VStr (u "Failed to load workflow details"))
            end = shown w) as Hshown.
  { intros w. unfold shown. by destruct (log_loaded w) as [[]|]. }
  assert (∀ w, WorkflowDetail.loading (shown w) = false) as Hoff.
  { intros w. unfold shown. by destruct (log_loaded w). }
  unfold s', WorkflowDetail.fetchWorkflowDetail. cbv zeta. fold found stored.
  split; [|split; [|split; [|split; [|split]]]].
  - destruct (truthy found) eqn:Hf; cbn [negb].
    { rewrite !Hf. cbn [negb]. rewrite Hf. by rewrite Hshown. }
    destruct (truthy stored) eqn:Hl; cbn [negb].
    { rewrite Hl. by rewrite Hshown. }
    destruct (truthy (WorkflowDetail.mock_workflow mock id stored)) eqn:Hm;
      [by rewrite Hshown|done].
  - intros Hf. do 3 (rewrite ?Hf; cbn [negb]). apply Hshown.
  - intros Hf Hl. rewrite Hf. do 3 (rewrite ?Hl; cbn [negb]). apply Hshown.
  - intros Hf Hl. rewrite Hf. cbn [negb]. rewrite Hl. cbn [negb]. split.
    + intros o -> Ho. rewrite mock_workflow_matches by done.
      apply Hshown.
    + intros Hno. rewrite mock_workflow_other by done. by rewrite Hl.
  - apply log_loaded_throws.
  - apply log_loaded_array.
Qed.

(** What is returned after the log of its [length] has a [length]
    that prints. *)
Lemma logged_length v ws :
  (len ← get_prop v (u "length"); _ ← ToString len; Returns v) = Returns ws →
  ∃ x p, get_prop ws (u "length") = Returns x ∧ ToString x = Returns p.
Proof.
  destruct (get_prop v (u "length")) as [x|] eqn:Hx;
    cbn [mbind outcome_bind]; [|done].
  destruct (ToString x) as [p|] eqn:Hp; cbn [mbind outcome_bind]; [|done].
  intros [= <-]. by exists x, p.
Qed.

Lemma getAllWorkflows_returns st r ws :
  getAllWorkflows st r = Returns ws →
  ∃ x p, get_prop ws (u "length") = Returns x ∧ ToString x = Returns p.
Proof.
  unfold getAllWorkflows.
  destruct r as [result|]; cbn [mbind outcome_bind];
    [|by apply logged_length].
  destruct (get_prop result (u "workflows")) as [w|];
    cbn [mbind outcome_bind]; [|by apply logged_length].
  destruct (truthy w); [|by apply logged_length].
  destruct (_ ≫= _) as [ws'|] eqn:Hw at 1; [|by apply logged_length].
  intros [= <-]. by apply (logged_length w).
Qed.

(** The listing throws only on its way through [localStorage]:
    reading the [length] of the parsed entry throws, or printing it. *)
Lemma getAllWorkflows_throws st r :
  getAllWorkflows st r = Throws →
  (len ← get_prop (getAllFromLocalStorage st) (u "length"); ToString len)
  = Throws.
Proof.
  unfold getAllWorkflows.
  destruct (_ ≫= _) as [ws|]; [done|].
  destruct (get_prop (getAllFromLocalStorage st) (u "length")) as [y|];
    cbn [mbind outcome_bind]; [|done].
  by destruct (ToString y).
Qed.

(** What is strictly equal to a number prints. *)
Lemma strict_eq_number_prints y n :
  strict_eq y (VNum n) = true → ∃ p, ToString y = Returns p.
Proof. destruct y; try done. simpl. eauto. Qed.

Lemma is_empty_throws v :
  WorkflowList.is_empty v = Throws ↔ get_prop v (u "length") = Throws.
Proof.
  unfold WorkflowList.is_empty. by destruct (get_prop v (u "length")).
Qed.

Lemma is_empty_returns v x :
  get_prop v (u "length") = Returns x →
  WorkflowList.is_empty v = Returns (strict_eq x (VNum (num_of_Z 0))).
Proof. intros Hx. unfold WorkflowList.is_empty. by rewrite Hx. Qed.

(** [l.length === 0] holds of the empty array only. *)
Lemma length_is_zero (l : list value) :
  strict_eq (VNum (num_of_nat (length l))) (VNum (num_of_Z 0))
  = match l with [] => true | _ => false end.
Proof.
  destruct l as [|x l]; [done|].
  unfold strict_eq, num_eqb, num_of_nat, num_of_Z, Qeq_bool. simpl Qnum.
  simpl Qden. apply Z.eqb_neq. simpl length. lia.
Qed.

Lemma get_prop_length (l : list value) :
  get_prop (VArr l) (u "length") = Returns (VNum (num_of_nat (length l))).
Proof. unfold get_prop. by rewrite bool_decide_eq_true_2. Qed.

(** The [try] block of [fetchWorkflows], from what the listing
    returned, when [localStorage] holds an entry of length zero. *)
Lemma listing_settles st mock ws y :
  get_prop (getAllFromLocalStorage st) (u "length") = Returns y →
  strict_eq y (VNum (num_of_Z 0)) = true →
  (∃ x p, get_prop ws (u "length") = Returns x ∧ ToString x = Returns p) →
  (nothing ← (if negb (truthy ws) then Returns true
              else WorkflowList.is_empty ws);
   workflows ← (if nothing : bool then
                  let workflows := getAllFromLocalStorage st in
                  none ← WorkflowList.is_empty workflows;
                  Returns (if none : bool
                           then WorkflowList.load_mock mock workflows
                           else workflows)
                else Returns ws);
   len ← get_prop workflows (u "length");
   _ ← ToString len;
   Returns workflows) ≠ Throws.
Proof.
  intros Hy Hz (x & p & Hx & Hp).
  destruct (strict_eq_number_prints y _ Hz) as [q Hq].
  assert ((workflows ← (let workflows := getAllFromLocalStorage st in
                        none ← WorkflowList.is_empty workflows;
                        Returns (if none : bool
                                 then WorkflowList.load_mock mock workflows
                                 else workflows));
           len ← get_prop workflows (u "length");
           _ ← ToString len;
           Returns workflows) ≠ Throws) as Hlocal.
  { cbv zeta. rewrite (is_empty_returns _ y Hy), Hz. cbn [mbind outcome_bind].
    destruct mock as [m|]; cbn [WorkflowList.load_mock].
    - by rewrite get_prop_length.
    - rewrite Hy. cbn [mbind outcome_bind]. by rewrite Hq. }
  destruct (truthy ws); cbn [negb mbind outcome_bind]; [|done].
  rewrite (is_empty_returns ws x Hx). cbn [mbind outcome_bind].
  destruct (strict_eq x _); [done|].
  cbn [mbind outcome_bind]. rewrite Hx. cbn [mbind outcome_bind].
  by rewrite Hp.
Qed.

(** X20. [fetchWorkflows] never ends with its message "No workflows
    found": when it settles without a throw, [loading] is off and
    [error] is what it was; and its promise rejects, with [loading] left
    on, only when reading [length] off the parsed entry of
    [localStorage] throws, as it does on [null]. *)
Theorem fetchWorkflows_never_reports st r mock s :
  let res := WorkflowList.fetchWorkflows st r mock s in
  WorkflowList.error res.2 = WorkflowList.error s
  ∧ match res.1 with
    | Returns _ => WorkflowList.loading res.2 = false
    | Throws =>
        res.2 = WorkflowList.State (WorkflowList.workflows s) true
                  (WorkflowList.error s)
        ∧ get_prop (getAllFromLocalStorage st) (u "length") = Throws
    end.
Proof.
  intros res. unfold res, WorkflowList.fetchWorkflows.
  destruct (_ ≫= _) as [ws|] eqn:Ha; [done|].
  destruct (get_prop (getAllFromLocalStorage st) (u "length")) as [y|] eqn:Hy.
  2:{ by rewrite (proj2 (is_empty_throws _) Hy). }
  rewrite (is_empty_returns _ y Hy).
  destruct (strict_eq y (VNum (num_of_Z 0))) eqn:Hz.
  - exfalso.
    destruct (getAllWorkflows st r) as [ws|] eqn:Hg.
    + cbn [mbind outcome_bind] in Ha.
      by apply (listing_settles st mock ws y Hy Hz
                  (getAllWorkflows_returns st r ws Hg)).
    + apply getAllWorkflows_throws in Hg. rewrite Hy in Hg.
      cbn [mbind outcome_bind] in Hg.
      destruct (strict_eq_number_prints y _ Hz) as [q Hq]. congruence.
  - by rewrite (is_empty_returns _ y Hy), Hz.
Qed.

Lemma is_empty_array (l : list value) :
  WorkflowList.is_empty (VArr l)
  = Returns match l with [] => true | _ => false end.
Proof.
  unfold WorkflowList.is_empty. rewrite get_prop_length.
  cbn [mbind outcome_bind]. by rewrite length_is_zero.
Qed.

(** X21. When the listing of the service and the entry of
    [localStorage] are arrays, [fetchWorkflows] shows the first of
    these that is not empty: the listing, the records of
    [localStorage], the mock record alone; and the empty list when the
    mock record cannot be fetched either. *)
Theorem fetchWorkflows_tiers st r mock s listed ws :
  getAllWorkflows st r = Returns (VArr listed) →
  getAllFromLocalStorage st = VArr ws →
  WorkflowList.fetchWorkflows st r mock s
  = (Returns (),
     WorkflowList.State
       match listed, ws, mock with
       | _ :: _, _, _ => VArr listed
       | [], _ :: _, _ => VArr ws
       | [], [], Returns mockData => VArr [mockData]
       | [], [], Throws => VArr []
       end
       false (WorkflowList.error s)).
Proof.
  intros Hg Hs. unfold WorkflowList.fetchWorkflows. rewrite Hg, Hs.
  cbn [mbind outcome_bind truthy negb]. rewrite (is_empty_array listed).
  destruct listed as [|x listed]; cbn [mbind outcome_bind].
  - rewrite (is_empty_array ws).
    destruct ws as [|w ws]; cbn [mbind outcome_bind].
    + destruct mock; cbn [WorkflowList.load_mock]; by rewrite get_prop_length.
    + by rewrite get_prop_length.
  - by rewrite get_prop_length.
Qed.

Lemma forEach_app {A} (f : A → value → outcome A) acc l1 l2 :
  forEach f acc (l1 ++ l2) = acc' ← forEach f acc l1; forEach f acc' l2.
Proof.
  revert acc. induction l1 as [|x l1 IH]; intros acc; [done|].
  simpl. destruct (f acc x) as [acc'|]; [|done]. apply IH.
Qed.

Lemma alternates_snoc secs c :
  alternates secs →
  (∀ s, last secs = Some s → strict_eq (number s) (number c) = false) →
  alternates (secs ++ [c]).
Proof.
  intros Ha Hl i s t Hs Ht.
  destruct (decide (S i < length secs)%nat) as [Hlt|Hge].
  - rewrite lookup_app_l in Hs by lia. rewrite lookup_app_l in Ht by lia.
    by eapply Ha.
  - assert (S i = length secs) as Hi.
    { apply lookup_lt_Some in Ht. rewrite length_app in Ht. simpl in Ht. lia. }
    rewrite lookup_app_l in Hs by lia.
    rewrite lookup_app_r in Ht by lia.
    replace (S i - length secs)%nat with 0%nat in Ht by lia.
    injection Ht as <-. apply Hl. rewrite last_lookup.
    by replace (pred (length secs)) with i by lia.
Qed.

(** One message either leaves the two variables alone or opens an entry
    for a section other than the current one. *)
Lemma breakdown_step_cases acc msg acc' :
  breakdown_step acc msg = Returns acc' →
  acc' = acc
  ∨ ∃ c, acc' = (acc.1 ++ [c], Some c)
         ∧ truthy (number c) = true
         ∧ ∀ s, acc.2 = Some s → strict_eq (number s) (number c) = false.
Proof.
  unfold breakdown_step.
  destruct (get_prop msg (u "type")) as [type|]; [|done]. cbn.
  destruct (strict_eq type _); [|intros [= <-]; by left].
  destruct (get_prop msg (u "data")) as [data|]; [|done]. cbn.
  destruct (get_optional data (u "section")) as [section|]; [|done]. cbn.
  destruct (truthy section) eqn:Hsec; [|intros [= <-]; by left].
  destruct acc as [secs [current|]]; cbn [fst snd].
  - destruct (strict_eq (number current) section) eqn:Hc; cbn [negb];
      [intros [= <-]; by left|].
    destruct (get_prop msg (u "agent")) as [agent|]; [|done]. cbn.
    destruct (get_prop data (u "completed")) as [completed|]; [|done]. cbn.
    destruct (get_prop msg (u "timestamp")) as [timestamp|]; [|done]. cbn.
    intros [= <-]. right. eexists. split; [done|]. split; [done|].
    by intros s [= <-].
  - destruct (get_prop msg (u "agent")) as [agent|]; [|done]. cbn.
    destruct (get_prop data (u "completed")) as [completed|]; [|done]. cbn.
    destruct (get_prop msg (u "timestamp")) as [timestamp|]; [|done]. cbn.
    intros [= <-]. right. eexists. split; [done|]. split; [done|]. done.
Qed.

Lemma breakdown_step_grouped acc msg acc' :
  breakdown_step acc msg = Returns acc' → grouped acc → grouped acc'.
Proof.
  intros [->|(c & -> & Hc & Hne)]%breakdown_step_cases (Hl & Ht & Ha); [done|].
  split; [|split]; cbn [fst snd].
  - by rewrite last_snoc.
  - apply Forall_app. split; [done|]. by apply Forall_singleton.
  - apply alternates_snoc; [done|]. intros s Hs. apply Hne. by rewrite Hl.
Qed.

Lemma forEach_grouped l acc acc' :
  forEach breakdown_step acc l = Returns acc' → grouped acc → grouped acc'.
Proof.
  revert acc. induction l as [|msg l IH]; intros acc; simpl.
  - by intros [= <-].
  - destruct (breakdown_step acc msg) as [acc1|] eqn:Hs; [|done]. cbn.
    intros Hl Hg. eapply IH; [done|]. by eapply breakdown_step_grouped.
Qed.

Lemma getSectionBreakdown_array o l :
  getSectionBreakdown (VObj (<[u "messages" := VArr l]> o))
  = acc ← forEach breakdown_step ([], None) l; Returns acc.1.
Proof.
  unfold getSectionBreakdown. cbn [get_optional get_prop].
  by rewrite lookup_insert_eq.
Qed.

(** X22. In what [getSectionBreakdown] returns, every entry stands for
    a section that is truthy, and no two entries in a row stand for the
    same section: responses that follow one another for one section
    share an entry. *)
Theorem getSectionBreakdown_groups workflow secs :
  getSectionBreakdown workflow = Returns secs →
  Forall (λ s, truthy (number s) = true) secs ∧ alternates secs.
Proof.
  unfold getSectionBreakdown.
  destruct (get_optional workflow (u "messages")) as [messages|]; [|done]. cbn.
  destruct (truthy messages); cbn [negb].
  - destruct messages as [| | | | |l|]; try done.
    destruct (forEach breakdown_step ([], None) l) as [acc|] eqn:Hl; [|done].
    cbn. intros [= <-].
    apply forEach_grouped in Hl as (_ & Ht & Ha); [done|].
    split; [done|]. split; [done|]. by intros i s t Hs.
  - intros [= <-]. split; [done|]. by intros i s t Hs.
Qed.

(** X23. A response for the section of the last entry adds nothing and
    changes nothing: the entry keeps the agent, the time and the status
    of the response that opened it, also when the later response is the
    one that reports the section completed. *)
Theorem repeated_section_is_ignored o l msg data section secs current :
  getSectionBreakdown (VObj (<[u "messages" := VArr l]> o))
  = Returns (secs ++ [current]) →
  get_prop msg (u "type") = Returns (VStr (u "agent_response")) →
  get_prop msg (u "data") = Returns data →
  get_optional data (u "section") = Returns section →
  strict_eq (number current) section = true →
  getSectionBreakdown (VObj (<[u "messages" := VArr (l ++ [msg])]> o))
  = Returns (secs ++ [current]).
Proof.
  rewrite !getSectionBreakdown_array, forEach_app.
  destruct (forEach breakdown_step ([], None) l) as [acc|] eqn:Hl; [|done].
  cbn. intros [= Hacc] Hty Hd Hsec Heq.
  apply forEach_grouped in Hl as (Hlast & Ht & _);
    [|split; [done|]; split; [done|]; by intros i s t Hs].
  destruct acc as [secs' cur]. cbn [fst snd] in *. subst secs'.
  rewrite last_snoc in Hlast. subst cur.
  unfold breakdown_step. rewrite Hty. cbn. rewrite bool_decide_eq_true_2 by done.
  rewrite Hd. cbn. rewrite Hsec. cbn.
  rewrite Heq. cbn [negb]. by destruct (truthy section).
Qed.


Lemma bump_total key agent st : total (bump key agent st) = S (total st).
Proof.
  induction st as [|[k [count a]] st IH]; [done|].
  cbn [bump]. destruct (bool_decide (k = key)); [done|].
  change (total ((k, (count, a)) :: bump key agent st))
    with (count + total (bump key agent st))%nat.
  rewrite IH.
  change (total ((k, (count, a)) :: st)) with (count + total st)%nat. lia.
Qed.

Lemma stats_step_total st msg st' :
  stats_step st msg = Returns st' →
  total st' = (total st + if counted msg then 1 else 0)%nat.
Proof.
  unfold stats_step, counted.
  destruct (get_prop msg (u "agent")) as [agent|] eqn:Ha; [|done]. cbn.
  assert (∃ type, get_prop msg (u "type") = Returns type) as [type Ht].
  { destruct msg as [| |b|n|s|l|o]; simpl in *; try done; eauto;
      destruct (bool_decide _); eauto. }
  rewrite Ht. destruct (truthy agent); cbn; [|intros [= <-]; lia].
  destruct (strict_eq type _); cbn; [|intros [= <-]; lia].
  destruct (ToString agent) as [key|]; cbn; [|done].
  destruct (bool_decide _); cbn; intros [= <-]; [lia|].
  rewrite bump_total. lia.
Qed.

Lemma forEach_total msgs st st' :
  forEach stats_step st msgs = Returns st' →
  total st' = (total st + length (filter (λ m, counted m = true) msgs))%nat.
Proof.
  revert st. induction msgs as [|msg msgs IH]; intros st; cbn [forEach].
  - intros [= <-]. cbn. lia.
  - destruct (stats_step st msg) as [st1|] eqn:Hs; [|done].
    cbn [mbind outcome_bind]. intros Hf. apply IH in Hf. apply stats_step_total in Hs.
    rewrite Hf, Hs.
    destruct (counted msg) eqn:Hc.
    + rewrite filter_cons_True by done. rewrite length_cons. lia.
    + rewrite filter_cons_False by (by rewrite Hc). lia.
Qed.

Lemma insert_index_perm i x l :
  (insert_index i x l).*2 ≡ₚ x :: l.*2.
Proof.
  induction l as [|[j y] l IH]; [done|]. simpl.
  destruct (i <? j); [done|]. simpl. rewrite IH. apply Permutation_swap.
Qed.

(** [Object.values] lists every property once. *)
Lemma values_perm st : values st ≡ₚ st.*2.
Proof.
  unfold values. induction st as [|[k x] st IH]; [done|].
  cbn [foldr filter list_filter fst snd fmap list_fmap].
  destruct (index_key k) as [i|] eqn:Hk.
  - rewrite decide_False by done. rewrite insert_index_perm. simpl.
    by rewrite IH.
  - rewrite decide_True by done. cbn [fmap list_fmap snd].
    rewrite <- Permutation_middle. by rewrite IH.
Qed.

Lemma insert_count_perm x l : insert_count x l ≡ₚ x :: l.
Proof.
  induction l as [|y l IH]; [done|]. simpl.
  destruct (x.1 <? y.1)%nat; [|done]. rewrite IH. apply Permutation_swap.
Qed.

Lemma sort_by_count_perm l : sort_by_count l ≡ₚ l.
Proof.
  induction l as [|x l IH]; [done|]. unfold sort_by_count in *. simpl.
  by rewrite insert_count_perm, IH.
Qed.

Lemma insert_count_sorted x l :
  Sorted descending l → Sorted descending (insert_count x l).
Proof.
  induction 1 as [|y l Hl IH Hy]; simpl; [by repeat constructor|].
  destruct (Nat.ltb_spec x.1 y.1) as [Hlt|Hge].
  - constructor; [done|].
    destruct l as [|z l]; simpl.
    + constructor. unfold descending. lia.
    + destruct (Nat.ltb_spec x.1 z.1).
      * constructor. by inversion Hy.
      * constructor. unfold descending. lia.
  - constructor; [by constructor|]. by constructor.
Qed.

Lemma sort_by_count_sorted l : Sorted descending (sort_by_count l).
Proof.
  induction l as [|x l IH]; [constructor|]. by apply insert_count_sorted.
Qed.

Lemma sum_list_perm (l k : list nat) : l ≡ₚ k → sum_list l = sum_list k.
Proof. induction 1; simpl; lia. Qed.

(** X24. [getAgentStats] counts every response it counts once: the
    counts of the entries add up to the number of messages that are an
    agent response with a truthy [agent] whose name [stats] does not
    inherit, and the entries come in descending order of [count]. *)
Theorem getAgentStats_counts o msgs l :
  getAgentStats (VObj (<[u "messages" := VArr msgs]> o)) = Returns l →
  sum_list l.*1 = length (filter (λ m, counted m = true) msgs)
  ∧ Sorted descending l.
Proof.
  unfold getAgentStats. cbn [get_optional get_prop].
  rewrite lookup_insert_eq. cbn.
  destruct (forEach stats_step [] msgs) as [st|] eqn:Hf; [|done]. cbn.
  intros [= <-]. split; [|apply sort_by_count_sorted].
  apply forEach_total in Hf. simpl in Hf. rewrite <- Hf. unfold total.
  rewrite list_fmap_compose. apply sum_list_perm, fmap_Permutation.
  by rewrite sort_by_count_perm, values_perm.
Qed.

End WorkflowPages.

(** ** The section pages *)

Section SectionPages.
Context `{Platform}.

(** X10. A fetch that fails leaves a section page with what it showed
    and with the failure as its error, and caches nothing: the retry
    fetches again.  With the text of the transcript the retry caches
    the document, and the page shows the slot of its section, here for
    a number [n] that prints as [d], unless the summary that
    [parseAnalystDataFile] logs throws: the page then keeps what it
    showed, with the TypeError as its error, and the next retry, which
    finds the document cached, shows the slot without a fetch. *)
Theorem retry_fetches_again txt n d f s :
  let failed := Pages.fetchSectionData n None f s in
  let cached := Some (Data (extract txt)) in
  let shown := Pages.State (slot (extract txt) (section_key d)) false None in
  let refused := Pages.State (Pages.data s) false (Some Pages.TypeError) in
  NumberToString (num_of_Z n) = u d →
  (∀ t, f ≠ Text t) →
  failed = (Pages.State (Pages.data s) false (Some (Pages.FetchFailed f)), None)
  ∧ Pages.fetchSlot d None f s = failed
  ∧ (log_summary (extract txt) = Returns () →
     Pages.fetchSectionData n failed.2 (Text txt) failed.1 = (shown, cached)
     ∧ Pages.fetchSlot d failed.2 (Text txt) failed.1 = (shown, cached))
  ∧ (log_summary (extract txt) = Throws →
     Pages.fetchSectionData n failed.2 (Text txt) failed.1 = (refused, cached)
     ∧ Pages.fetchSlot d failed.2 (Text txt) failed.1 = (refused, cached)
     ∧ ∀ f',
         Pages.fetchSectionData n cached f' refused = (shown, cached)
         ∧ Pages.fetchSlot d cached f' refused = (shown, cached)).
Proof.
  intros failed cached shown refused Hn Hf.
  assert (failed
          = (Pages.State (Pages.data s) false (Some (Pages.FetchFailed f)), None))
    as Hfail.
  { destruct f as [| | |t]; [done..|by destruct (Hf t)]. }
  split; [done|]. split.
  { rewrite Hfail. destruct f as [| | |t]; [done..|by destruct (Hf t)]. }
  rewrite Hfail. cbn [fst snd].
  unfold Pages.fetchSectionData, Pages.fetchSlot, getSectionData.
  rewrite parseAnalystDataFile_text. split.
  - intros ->. cbn [ToString mbind outcome_bind sections]. by rewrite Hn.
  - intros ->. split; [done|]. split; [done|]. intros f'.
    cbn [parseAnalystDataFile ToString mbind outcome_bind sections].
    by rewrite Hn.
Qed.

(** X11. The guard of the section pages never throws, whatever the
    shape of the payload; and it holds of a section that is absent, of
    a payload without [slides] and of one whose [slides] is the empty
    array: the page then says that no data is available. *)
Theorem no_data_guard data :
  (∃ b, Pages.no_data data = Returns b)
  ∧ (truthy data = false → Pages.no_data data = Returns true)
  ∧ (∀ o, data = VObj o → o !! u "slides" = None →
          Pages.no_data data = Returns true)
  ∧ (∀ o, data = VObj o → o !! u "slides" = Some (VArr []) →
          Pages.no_data data = Returns true)
  ∧ (∀ o x l, data = VObj o → o !! u "slides" = Some (VArr (x :: l)) →
              Pages.no_data data = Returns false).
Proof.
  unfold Pages.no_data. split; [|split; [|split; [|split]]].
  - destruct (truthy data) eqn:Hd; cbn [negb]; [|eauto].
    destruct (get_prop_truthy data (u "slides") Hd) as [slides ->]. cbn.
    destruct (truthy slides) eqn:Hs; cbn [negb]; [|eauto].
    destruct (get_prop_truthy slides (u "length") Hs) as [len ->]. cbn. eauto.
  - by intros ->.
  - intros o -> Ho. cbn. by rewrite Ho.
  - intros o -> Ho. cbn. by rewrite Ho.
  - intros o x l -> Ho. cbn [truthy negb get_prop]. rewrite Ho.
    cbn [default mbind outcome_bind truthy negb].
    unfold get_prop. by rewrite bool_decide_eq_true_2 by done.
Qed.

(** The callback of [map] returns on an object. *)
Lemma company_object o :
  ∃ c, Pages.company (VObj o) = Returns (VObj c)
       ∧ c !! u "name" = Some (default VUndefined (o !! u "company")).
Proof.
  unfold Pages.company, Pages.field. cbn [get_prop mbind outcome_bind].
  set (narrative := default VUndefined (o !! u "narrative")).
  assert (∀ part key, ∃ x,
            (p ← get_optional narrative (u part);
             x ← get_optional p (u key);
             Returns (js_or x (VStr []))) = Returns x) as Hf.
  { intros part key.
    assert (∀ v k, ∃ x, get_optional v k = Returns x) as Hopt.
    { intros v k. destruct v as [| |b|n|s|l|m]; simpl; eauto;
        destruct (bool_decide _); eauto. }
    destruct (Hopt narrative (u part)) as [p ->]. cbn.
    destruct (Hopt p (u key)) as [x ->]. cbn. eauto. }
  destruct (Hf "business_overview"%string "statement"%string) as [x1 ->].
  destruct (Hf "business_overview"%string "explanation"%string) as [x2 ->].
  destruct (Hf "business_model"%string "statement"%string) as [x3 ->].
  destruct (Hf "business_model"%string "explanation"%string) as [x4 ->].
  destruct (Hf "strategic_context"%string "statement"%string) as [x5 ->].
  destruct (Hf "strategic_context"%string "explanation"%string) as [x6 ->].
  cbn [mbind outcome_bind]. eexists. split; [done|].
  by rewrite lookup_insert_eq.
Qed.

Lemma mapM_company slides :
  Forall (λ slide, ∃ o, slide = VObj o) slides →
  ∃ cs, mapM Pages.company slides = Returns cs
        ∧ length cs = length slides
        ∧ ∀ i slide c, slides !! i = Some slide → cs !! i = Some c →
            get_prop c (u "name") = get_prop slide (u "company").
Proof.
  induction 1 as [|slide slides [o ->] _ (cs & Hm & Hl & Hn)].
  - exists []. by repeat split.
  - destruct (company_object o) as (c & Hc & Hname).
    exists (VObj c :: cs). cbn [mapM]. rewrite Hc. cbn [mbind outcome_bind].
    rewrite Hm. cbn [mbind outcome_bind mret outcome_ret].
    split; [done|]. split; [simpl; by rewrite Hl|].
    intros [|i] slide c'; simpl.
    + intros [= <-] [= <-]. simpl. by rewrite Hname.
    + apply Hn.
Qed.

(** X12. [fetchCompanyData] reads [slides] off the [section1] of the
    document without a test: when the first pass stored nothing there,
    the page catches a TypeError and shows it as its error, with the
    companies it had.  When section 1 is there with an array of objects
    as its [slides], the page shows one company for each slide, in
    order, named by the [company] of the slide, unless the summary that
    [parseAnalystDataFile] logs throws: the page then ends with the
    TypeError, and shows the companies on the next call, from the
    cache.  The two hypotheses on the platform are those of the
    extractor: no number between 2 and 8 prints as [1], and the string
    [1] does not read as such a number. *)
Theorem fetchCompanyData_needs_section1 txt s :
  let cached := Some (Data (extract txt)) in
  let refused := Pages.State (Pages.data s) false (Some Pages.TypeError) in
  (∀ n, in_range n = true → NumberToString n ≠ u "1") →
  in_range (StringToNumber (u "1")) = false →
  (section1_payload txt = None →
   Pages.fetchCompanyData None (Text txt) s = (refused, cached))
  ∧ (∀ o slides,
       section1_payload txt = Some (VObj o) →
       o !! u "slides" = Some (VArr slides) →
       Forall (λ slide, ∃ o', slide = VObj o') slides →
       ∃ companies,
         length companies = length slides
         ∧ (∀ i slide c, slides !! i = Some slide → companies !! i = Some c →
              get_prop c (u "name") = get_prop slide (u "company"))
         ∧ (log_summary (extract txt) = Returns () →
            Pages.fetchCompanyData None (Text txt) s
            = (Pages.State (VArr companies) false None, cached))
         ∧ (log_summary (extract txt) = Throws →
            Pages.fetchCompanyData None (Text txt) s = (refused, cached)
            ∧ ∀ f', Pages.fetchCompanyData cached f' refused
                    = (Pages.State (VArr companies) false None, cached))).
Proof.
  intros cached refused HA HB.
  assert (slot (extract txt) (section_key "1")
          = default VNull (section1_payload txt)) as H1.
  { unfold extract. rewrite scan_blocks_section1; [|done..].
    rewrite extract_section1_payload.
    destruct (section1_payload txt); [|done].
    unfold slot. by rewrite lookup_insert_eq. }
  unfold Pages.fetchCompanyData. rewrite parseAnalystDataFile_text. split.
  - intros Hnone. destruct (log_summary (extract txt)); [|done].
    cbn [sections]. by rewrite H1, Hnone.
  - intros o slides Hsome Ho Hs.
    destruct (mapM_company slides Hs) as (cs & Hm & Hl & Hn).
    exists cs. split; [done|]. split; [done|].
    assert (∀ st : Pages.state,
              match
                (slides0 ← get_prop (slot (extract txt) (section_key "1"))
                                    (u "slides");
                 match slides0 with
                 | VArr l =>
                     companyData ← mapM Pages.company l;
                     Returns (Some (VArr companyData))
                 | _ => Returns None
                 end)
              with
              | Returns (Some companyData) =>
                  (Pages.State companyData false None, cached)
              | Returns None => (Pages.State (Pages.data st) false None, cached)
              | Throws =>
                  (Pages.State (Pages.data st) false (Some Pages.TypeError),
                   cached)
              end = (Pages.State (VArr cs) false None, cached)) as Hshow.
    { intros st. rewrite H1, Hsome. cbn [from_option id get_prop]. rewrite Ho.
      cbn [from_option id mbind outcome_bind]. by rewrite Hm. }
    split.
    + intros ->. cbn [sections]. apply Hshow.
    + intros ->. split; [done|]. intros f'.
      cbn [parseAnalystDataFile sections]. apply Hshow.
Qed.

End SectionPages.

(** ** The names of the agents *)

Section AgentNames.
Import AgentWorkflow.

Lemma trim_start_no_space s :
  Forall (λ c, is_space c = false) s → Reference.trim_start s = s.
Proof. destruct 1 as [|c s Hc _]; [done|]. simpl. by rewrite Hc. Qed.

(** [trim] finds nothing to remove where no white space is left. *)
Lemma trim_no_space s :
  Forall (λ c, is_space c = false) s → Reference.trim s = s.
Proof.
  intros Hs. unfold Reference.trim.
  rewrite (trim_start_no_space s Hs), trim_start_no_space.
  - apply rev_involutive.
  - by apply Forall_rev.
Qed.

Lemma remove_spaces_no_space s :
  Forall (λ c, is_space c = false) (remove_spaces s).
Proof.
  apply Forall_forall. intros c Hc%list_elem_of_filter. by destruct Hc.
Qed.

Lemma remove_spaces_id s :
  Forall (λ c, is_space c = false) s → remove_spaces s = s.
Proof.
  induction 1 as [|c s Hc _ IH]; [done|].
  unfold remove_spaces in *. cbn [filter list_filter].
  rewrite decide_True by done. by f_equal.
Qed.

(** The name that is looked up in [mapping]. *)
Lemma mapAgentNameToVisualization_string s :
  remove_spaces s ≠ [] →
  mapAgentNameToVisualization (VStr s)
  = let normalized := remove_agent_suffix (remove_spaces s) in
    match mapping !! normalized with
    | Some v => Returns (Value (js_or v VNull))
    | None =>
        if bool_decide (normalized ∈ WorkflowDetail.object_prototype)
        then Returns (Member normalized)
        else Returns (Value VNull)
    end.
Proof.
  intros Hne. unfold mapAgentNameToVisualization.
  destruct s as [|c s]; [done|]. cbn [truthy negb].
  by rewrite trim_no_space by apply remove_spaces_no_space.
Qed.

Lemma mapAgentNameToVisualization_blank s :
  remove_spaces s = [] → mapAgentNameToVisualization (VStr s) = Returns (Value VNull).
Proof.
  intros He. unfold mapAgentNameToVisualization.
  destruct s as [|c s]; [done|]. cbn [truthy negb]. rewrite He.
  by vm_compute.
Qed.

Lemma remove_agent_suffix_app s a :
  fold_case <$> a = u "agent" → remove_agent_suffix (s ++ a) = s.
Proof.
  intros Ha. assert (length a = 5%nat) as Hl.
  { by rewrite <- (length_fmap fold_case), Ha. }
  unfold remove_agent_suffix. rewrite length_app, Hl.
  replace (length s + 5 - 5)%nat with (length s) by lia.
  rewrite drop_app_length, Ha, bool_decide_eq_true_2 by done.
  by rewrite take_app_length.
Qed.

(** X25. [mapAgentNameToVisualization] does not see the white space of
    a name, nor one [Agent] at its end, in whatever case: a name maps as
    the name without its white space does, and a name without white
    space that does not itself end in [agent] maps the same with those
    five letters behind it. *)
Theorem mapAgentNameToVisualization_normalizes :
  (∀ s, mapAgentNameToVisualization (VStr s)
        = mapAgentNameToVisualization (VStr (remove_spaces s)))
  ∧ (∀ s a,
       Forall (λ c, is_space c = false) (s ++ a) →
       remove_agent_suffix s = s →
       fold_case <$> a = u "agent" →
       mapAgentNameToVisualization (VStr (s ++ a))
       = mapAgentNameToVisualization (VStr s)).
Proof.
  split.
  - intros s. destruct (remove_spaces s) as [|c r] eqn:Hr.
    + by rewrite mapAgentNameToVisualization_blank.
    + rewrite mapAgentNameToVisualization_string by by rewrite Hr.
      rewrite <- Hr.
      rewrite (mapAgentNameToVisualization_string (remove_spaces s)).
      * by rewrite (remove_spaces_id (remove_spaces s))
          by apply remove_spaces_no_space.
      * rewrite (remove_spaces_id (remove_spaces s))
          by apply remove_spaces_no_space.
        by rewrite Hr.
  - intros s a Hsp Hs Ha.
    assert (a ≠ []) as Hane by (by intros ->).
    apply Forall_app in Hsp as Hsa. destruct Hsa as [Hss _].
    rewrite mapAgentNameToVisualization_string.
    2:{ rewrite remove_spaces_id by done. by destruct s, a. }
    rewrite (remove_spaces_id _ Hsp), (remove_agent_suffix_app s a Ha).
    destruct s as [|c s]; [by vm_compute|].
    rewrite mapAgentNameToVisualization_string
      by (by rewrite remove_spaces_id).
    by rewrite (remove_spaces_id _ Hss), Hs.
Qed.

Lemma mapping_drawn k v : mapping !! k = Some v → is_drawn v = true.
Proof.
  assert (map_Forall (λ _ v, is_drawn v = true) mapping) as Hall.
  { apply (bool_decide_unpack _). by vm_compute. }
  apply Hall.
Qed.

(** X26. What [mapAgentNameToVisualization] returns for a name is
    [null] or the [name] of an agent the view draws; only a name that
    [mapping] inherits from [Object.prototype] gives anything else, the
    inherited member. *)
Theorem mapAgentNameToVisualization_range agentName v :
  mapAgentNameToVisualization agentName = Returns (Value v) →
  v = VNull ∨ ∃ n, n ∈ drawn ∧ v = VStr n.
Proof.
  unfold mapAgentNameToVisualization.
  destruct (truthy agentName); cbn [negb]; [|intros [= <-]; by left].
  destruct agentName as [| | | |s| |]; try done.
  destruct (mapping !! _) as [x|] eqn:Hx.
  - apply mapping_drawn in Hx. intros [= <-].
    destruct x as [| | | |n| |]; try done; [by left|].
    apply bool_decide_eq_true in Hx. destruct n as [|c n]; [by left|].
    right. by exists (c :: n).
  - destruct (bool_decide _); [done|]. intros [= <-]. by left.
Qed.

End AgentNames.

(** ** Where the document's payloads come from *)

Section FencedFacts.

(** What each combinator takes off the text before its continuation. *)
Lemma lit_takes {B} w (k : jsstring → option B) s r :
  lit_ w k s = Some r → ∃ s', s = w ++ s' ∧ k s' = Some r.
Proof.
  unfold lit_. destruct (strip_prefix w s) as [s'|] eqn:Hw; [|done].
  apply strip_prefix_spec in Hw. eauto.
Qed.

Lemma opt_takes {B} w (k : jsstring → option B) s r :
  opt_ w k s = Some r → ∃ t s', s = t ++ s' ∧ (t = [] ∨ t = w) ∧ k s' = Some r.
Proof.
  unfold opt_. destruct (lit_ w k s) as [r'|] eqn:Hl.
  - intros [= <-]. apply lit_takes in Hl as (s' & -> & Hk).
    exists w, s'. eauto.
  - intros Hk. exists [], s. eauto.
Qed.

Lemma star_greedy_takes {B} c (k : jsstring → option B) s r :
  star_greedy c k s = Some r →
  ∃ ws s', s = ws ++ s' ∧ Forall (λ a, c a = true) ws ∧ k s' = Some r.
Proof.
  induction s as [|a s IH]; simpl.
  - intros Hk. exists [], []. eauto.
  - destruct (c a) eqn:Ha; [|intros Hk; exists [], (a :: s); eauto].
    destruct (star_greedy c k s) as [r'|] eqn:Hs.
    + intros [= <-]. destruct (IH eq_refl) as (ws & s' & -> & Hws & Hk).
      exists (a :: ws), s'. split; [done|]. split; [by constructor|done].
    + intros Hk. exists [], (a :: s). eauto.
Qed.

(** A match of the scan starts somewhere in the text. *)
Lemma matchAll_position n s body :
  (length s < n)%nat → body ∈ matchAll s →
  ∃ pre s' rest, s = pre ++ s' ∧ allJsonBlocks_here s' = Some (body, rest).
Proof.
  revert s. induction n as [|n IH]; intros s Hn; [lia|].
  rewrite matchAll_unfold.
  destruct (allJsonBlocks_here s) as [[b rest]|] eqn:Hs.
  - intros [->|Hin]%elem_of_cons; [by exists [], s, rest|].
    pose proof Hs as Hshrink. apply allJsonBlocks_here_shrinks in Hshrink.
    destruct (IH rest ltac:(lia) Hin) as (pre & s' & rest' & -> & Hm).
    unfold allJsonBlocks_here in Hs.
    apply lit_takes in Hs as (s1 & -> & Hs).
    apply opt_takes in Hs as (t & s2 & -> & _ & Hs).
    apply star_greedy_takes in Hs as (ws & s3 & -> & _ & Hs).
    apply lit_takes in Hs as (s4 & -> & Hs).
    apply capture_lazy_first in Hs as (consumed & _ & -> & _).
    eexists (fence ++ t ++ ws ++ [LF] ++ consumed ++ closing ++ pre), s', rest'.
    split; [|done]. by rewrite <- !app_assoc.
  - destruct s as [|a s]; [by intros ?%elem_of_nil|].
    intros Hin. destruct (IH s ltac:(simpl in Hn; lia) Hin)
      as (pre & s' & rest' & -> & Hm).
    by exists (a :: pre), s', rest'.
Qed.

(** X27. Every text the scan captures stands in the transcript as the
    body of a fenced block: after three backticks, the tag [json] or
    none, white space and a line feed, and before a line feed and three
    backticks. *)
Theorem captured_body_is_fenced txt body :
  body ∈ matchAll txt →
  ∃ pre t ws post,
    txt = pre ++ render (Fenced t ws body) ++ post
    ∧ (t = [] ∨ t = u "json")
    ∧ Forall (λ a, is_space a = true) ws.
Proof.
  intros (pre & s & rest & -> & Hs)%(matchAll_position (S (length txt)));
    [|lia].
  unfold allJsonBlocks_here in Hs.
  apply lit_takes in Hs as (s1 & -> & Hs).
  apply opt_takes in Hs as (t & s2 & -> & Ht & Hs).
  apply star_greedy_takes in Hs as (ws & s3 & -> & Hws & Hs).
  apply lit_takes in Hs as (s4 & -> & Hs).
  apply capture_lazy_first in Hs as (consumed & -> & -> & _).
  exists pre, t, ws, rest. split; [|done].
  unfold render. cbn [tag padding Regex.body]. rewrite app_nil_l.
  repeat (rewrite <- app_assoc || rewrite <- app_comm_cons). done.
Qed.

End FencedFacts.

Section ProvenanceFacts.
Context `{Platform}.

(** Where the truthy values of the document come from: the document the
    loop started with, or a match that is a payload for the key. *)
Lemma scan_blocks_provenance bs s K v :
  slot (foldl scan_block s bs) K = v → truthy v = true →
  slot s K = v ∨ ∃ b, b ∈ bs ∧ candidate b = Some (K, v).
Proof.
  revert s. induction bs as [|b bs IH]; intros s Hv Ht; [by left|].
  simpl in Hv. destruct (IH _ Hv Ht) as [Hs|(b' & Hb' & Hc)].
  - rewrite scan_block_candidate in Hs.
    destruct (candidate b) as [[K' v']|] eqn:Hc; [|by left].
    destruct (truthy (slot s K')); [by left|].
    destruct (decide (K' = K)) as [->|Hne].
    + right. exists b. split; [by left|].
      unfold slot in Hs. rewrite lookup_insert_eq in Hs. simpl in Hs.
      by subst v'.
    + left. unfold slot in *. by rewrite lookup_insert_ne in Hs.
  - right. exists b'. split; [by right|done].
Qed.

Lemma empty_sections_falsy K : truthy (slot empty_sections K) = false.
Proof.
  unfold slot, empty_sections.
  repeat (match goal with
          | |- context [<[?k := _]> _ !! K] =>
              destruct (decide (k = K)) as [<-|?];
              [by rewrite lookup_insert_eq|rewrite lookup_insert_ne by done]
          end).
  by rewrite lookup_empty.
Qed.

(** X28. Every slot of the extracted document that is not empty holds
    the payload of a block of the transcript: what the dedicated pattern
    stored, under [section1], or what the loop made of a match that
    claims the key. *)
Theorem slots_hold_payloads txt K v :
  slot (extract txt) K = v → truthy v = true →
  (K = section_key "1" ∧ section1_payload txt = Some v)
  ∨ ∃ b, b ∈ matchAll txt ∧ candidate b = Some (K, v).
Proof.
  intros Hv Ht. unfold extract in Hv.
  destruct (scan_blocks_provenance _ _ K v Hv Ht) as [Hs|?]; [|by right].
  left. rewrite extract_section1_payload in Hs.
  pose proof (empty_sections_falsy K) as He.
  destruct (section1_payload txt) as [p|]; [|by rewrite Hs, Ht in He].
  destruct (decide (K = section_key "1")) as [->|Hne].
  - unfold slot in Hs. rewrite lookup_insert_eq in Hs. simpl in Hs.
    by subst p.
  - unfold slot in Hs, He. rewrite lookup_insert_ne in Hs by done.
    by rewrite Hs, Ht in He.
Qed.

End ProvenanceFacts.

(** ** The service when the backend answers *)

Section BackendFacts.
Context `{Platform}.

(** X29. When the backend reports success, the service takes its word
    and leaves [localStorage] alone: [addMessage] and
    [updateWorkflowStatus] succeed without a local write, so that a
    lookup with the backend down shows the record as it was before; and
    [getWorkflow] returns the [workflow] of the reply, be it
    [undefined], whatever [localStorage] holds. *)
Theorem backend_success_bypasses_store e st r workflowId message status result :
  succeeded r = Returns result →
  addMessage e st r workflowId message = (Returns Success, st)
  ∧ updateWorkflowStatus e st r workflowId status = (Returns Success, st)
  ∧ getWorkflow (addMessage e st r workflowId message).2 Throws workflowId
    = getWorkflow st Throws workflowId
  ∧ ∃ workflow,
      get_prop result (u "workflow") = Returns workflow
      ∧ ∀ st', getWorkflow st' r workflowId = workflow.
Proof.
  intros Hr. unfold addMessage, updateWorkflowStatus, getWorkflow.
  rewrite Hr. split; [done|]. split; [done|]. split; [done|].
  unfold succeeded in Hr. destruct r as [res|]; [|done]. cbn in Hr.
  destruct (get_prop res (u "success")) as [x|] eqn:Hx; [|done]. cbn in Hr.
  destruct (truthy x); [|done]. injection Hr as ->.
  destruct result as [| |b|n|s|l|o]; try done; cbn; eauto;
    destruct (bool_decide _); eauto.
Qed.

End BackendFacts.

(** ** The reference platform and the samples *)

Section ReferenceFacts.
Import Reference Sample.

(** A number between 2 and 8 prints with a first digit from 2 to 8. *)
Lemma number_to_string_in_range n :
  in_range n = true → ∃ d rest, number_to_string n = d :: rest ∧ 50 ≤ d ≤ 56.
Proof.
  destruct n as [| | |[p q]]; try done.
  unfold in_range, num_leb, num_of_Z, Qle_bool. simpl Qnum. simpl Qden.
  rewrite andb_true_iff, !Z.leb_le. intros [Hlo Hhi].
  assert (2 ≤ p / Z.pos q ≤ 8)%Z as Hd.
  { split.
    - apply Z.div_le_lower_bound; lia.
    - apply Z.div_le_upper_bound; lia. }
  unfold number_to_string. simpl Qnum. simpl Qden.
  assert ((p <? 0)%Z = false) as -> by lia.
  rewrite Z.abs_eq by lia. cbn [app].
  assert (p / Z.pos q = 2 ∨ p / Z.pos q = 3 ∨ p / Z.pos q = 4
          ∨ p / Z.pos q = 5 ∨ p / Z.pos q = 6 ∨ p / Z.pos q = 7
          ∨ p / Z.pos q = 8)%Z as Hc by lia.
  destruct Hc as [-> | [-> | [-> | [-> | [-> | [-> | ->]]]]]];
    eexists _, _; (split; [reflexivity|done]).
Qed.

Lemma reference_number_key n : in_range n = true → NumberToString n ≠ u "1".
Proof.
  intros (d & rest & Hn & Hd)%number_to_string_in_range.
  change (NumberToString n) with (number_to_string n). rewrite Hn.
  intros [= -> _]. lia.
Qed.

Lemma reference_string_key : in_range (StringToNumber (u "1")) = false.
Proof. reflexivity. Qed.


(** A fenced block of the samples is one the scan is written for. *)
Ltac scannable_block :=
  split; [auto|]; split; [by repeat constructor|];
  split; [eexists _, _; split; [cbv; reflexivity|reflexivity]
         |apply (bool_decide_unpack _); vm_compute; exact I].
Ltac no_backtick := apply (bool_decide_unpack _); vm_compute; exact I.

(** The first draft of section 3 is kept, the second dropped. *)
Lemma first_block_wins_witness :
  let first := (lit "Section three, first draft\n", Fenced (u "json") [] draft1) in
  let second := (lit "\nrevised\n", Fenced (u "json") [] draft2) in
  let txt := transcript [first; second] (lit "\n") in
  txt = two_drafts
  ∧ slot (extract txt) (section_key "3") = payload1
  ∧ ∀ f, ∃ d,
      parseAnalystDataFile (parseAnalystDataFile None (Text txt)).2 f
        = (Returns d, Some d)
      ∧ slot (sections d) (section_key "3") = payload1.
Proof.
  intros first second txt. split; [vm_compute; reflexivity|].
  apply (first_block_wins [first; second] (lit "\n") [] first [] second []
           (section_key "3") payload1 payload2).
  - repeat apply Forall_cons_2; [| |apply Forall_nil_2];
      (split; [no_backtick|scannable_block]).
  - no_backtick.
  - done.
  - right. left.
  - vm_compute. reflexivity.
  - vm_compute. reflexivity.
  - intros b Hb. by apply elem_of_nil in Hb.
Defined.

(** C2 fails as stated: behind a block in another language the fences
    pair up otherwise, the first draft of section 3 is no match of the
    scan, and the second draft is what is stored. *)
Lemma later_block_wins :
  foreign_first
  = render (Fenced (u "python") [] (lit "print(1)")) ++ lit "\nprose\n"
    ++ render (Fenced (u "json") [] draft1) ++ lit "\n"
    ++ render (Fenced (u "json") [] draft2) ++ lit "\n"
  ∧ spec_well_formed draft1 = true
  ∧ spec_well_formed draft2 = true
  ∧ candidate draft1 = Some (section_key "3", payload1)
  ∧ candidate draft2 = Some (section_key "3", payload2)
  ∧ payload1 ≠ payload2
  ∧ matchAll foreign_first = [lit "prose"; fence ++ lit "json\n" ++ draft2]
  ∧ slot (extract foreign_first) (section_key "3") = payload2.
Proof.
  repeat split; try (vm_compute; reflexivity).
  intros Heq.
  apply (f_equal (λ v, get_prop v (u "section_title"))) in Heq.
  vm_compute in Heq. discriminate.
Qed.








End ReferenceFacts.

Section ServiceSamples.
Import Reference Sample.

Ltac run := vm_compute; reflexivity.
Ltac fits := apply N.leb_le; run.
Ltac reads_back := split; [by vm_compute | run].

(** [createWorkflow(wd0)] on an empty store, the backend down. *)
Lemma createWorkflow_local_identifier_witness :
  createWorkflow e0 st0 Throws wd0
  = (Returns (Created (VStr id0) VUndefined), st1)
  ∧ id0 = u "workflow-" ++ u "2025-01-15" ++ u "-" ++ u "k3j9x2"
  ∧ id0 ≠ [].
Proof.
  destruct (createWorkflow_local_identifier e0 st0 Throws wd0 [])
    as (Hc & Hid & Hne & _); [run | run | fits | reads_back |].
  split; [|split].
  - rewrite Hc. run.
  - run.
  - done.
Defined.


(** [getWorkflow] after [createWorkflow(wd0)]. *)
Lemma getWorkflow_after_createWorkflow_witness :
  ∃ st' record,
    createWorkflow e0 st0 Throws wd0
    = (Returns (Created (VStr (generateWorkflowId e0 0)) VUndefined), st')
    ∧ getWorkflow st' Throws (generateWorkflowId e0 0) = record
    ∧ get_prop record (u "id") = Returns (VStr (generateWorkflowId e0 0))
    ∧ get_prop record (u "messages") = Returns (VArr []).
Proof.
  apply (getWorkflow_after_createWorkflow e0 st0 Throws Throws wd0 []);
    [run | run | run | run | run | run | fits | reads_back].
Defined.



(** C1 fails as stated: with the backend down and no room left in
    [localStorage], [createWorkflow] reports success with [undefined] as
    the identifier; with the entry holding [null], it throws. *)
Lemma createWorkflow_without_identifier :
  createWorkflow e0 st_full Throws wd0
  = (Returns (Created VUndefined VUndefined), st_full)
  ∧ createWorkflow e0 st_null Throws wd0 = (Throws, st_null).
Proof. split; run. Qed.


(** C6 fails as stated: initial fields with an [id] make the record
    impossible to find under the identifier returned; initial fields with
    [messages] give a record whose log is not empty; and an identifier
    drawn twice finds the older record with its log. *)
Lemma getWorkflow_misses_created :
  (createWorkflow e0 st0 Throws wd_id).1
  = Returns (Created (VStr id0) VUndefined)
  ∧ getWorkflow (createWorkflow e0 st0 Throws wd_id).2 Throws id0 = VUndefined
  ∧ (createWorkflow e0 st0 Throws wd_messages).1
    = Returns (Created (VStr id0) VUndefined)
  ∧ get_prop (getWorkflow (createWorkflow e0 st0 Throws wd_messages).2 Throws id0)
      (u "messages")
    = Returns (VArr [greeting])
  ∧ createWorkflow e0 st2 Throws wd0
    = (Returns (Created (VStr id0) VUndefined), st3)
  ∧ get_prop (getWorkflow st3 Throws id0) (u "messages")
    = Returns
        (VArr [VObj (<[u "timestamp" := VStr (toISOString e0 0)]> message0)]).
Proof. repeat split; run. Qed.


(** C8 fails as stated: no call the module exports, on no platform and
    with no fetch, leaves a filled [cachedData] empty. *)
Lemma no_call_clears_cache :
  ¬ ∃ (P : Platform) (c : call) (d : data) (f : fetched),
      @cache_after P c (Some d) f = None.
Proof.
  intros (P & c & d & f & Hc). by rewrite cache_after_filled in Hc.
Qed.


(** The fence of such a block starts no match, yet its text is scanned
    when a match that starts at another fence takes it in: behind a
    first block tagged [python], a match starts at the closing fence of
    that block and captures the second block, fence and tag with it. *)
Lemma other_tag_taken_in :
  matchAll foreign_twice
  = [fence ++ lit "python\n{'section':3,'slides':[]}"]
  ∧ truthy (slot (extract foreign_twice) (section_key "3")) = true.
Proof. split; run. Qed.

End ServiceSamples.

(** ** More runs on the reference platform *)

Section MoreSamples.
Import Reference Sample.

Ltac run := vm_compute; reflexivity.
Ltac fits := apply N.leb_le; run.
Ltac reads_back := split; [by vm_compute | run].
Ltac unlisted := apply (bool_decide_unpack _); vm_compute; exact I.


(** The record of [st_two] under [id0] replaced: found, and the other
    record as before. *)
Lemma updateInLocalStorage_replaces_one_witness :
  let updated := VObj (<[u "status" := VStr (u "completed")]> record0) in
  getFromLocalStorage (updateInLocalStorage st_two id0 updated) id0 = updated
  ∧ getFromLocalStorage (updateInLocalStorage st_two id0 updated) id1
    = getFromLocalStorage st_two id1.
Proof.
  intros updated.
  destruct (updateInLocalStorage_replaces_one st_two
              [VObj record0; VObj record1] id0 0%nat updated)
    as (Hsame & Hother & _); [run | run | | fits | reads_back |].
  - eexists. split; [done|]. run.
  - split; [exact Hsame|]. by apply Hother.
Defined.

(** A second [createWorkflow] that draws the identifier of the first:
    both records are listed, and the first is the one found. *)
Lemma createWorkflow_appends_witness :
  getAllWorkflows (createWorkflow e0 st1 Throws wd0).2 Throws
  = Returns (VArr [VObj record0; new_document e0 id0 wd0])
  ∧ getFromLocalStorage (createWorkflow e0 st1 Throws wd0).2 id0
    = VObj record0.
Proof.
  destruct (createWorkflow_appends e0 st1 Throws wd0 [VObj record0])
    as [Hl Hk]; [run | run | fits | reads_back |].
  split; [exact Hl|]. apply Hk; run.
Defined.

(** An identifier unknown to an empty store. *)
Lemma unknown_identifier_changes_nothing_witness :
  addMessage e0 st0 Throws id0 message0 = (Returns WorkflowNotFound, st0)
  ∧ updateWorkflowStatus e0 st0 Throws id0 (VStr (u "completed"))
    = (Returns WorkflowNotFound, st0).
Proof.
  destruct (unknown_identifier_changes_nothing e0 st0 Throws id0 message0
              (VStr (u "completed")) eq_refl) as [Hn _].
  apply Hn. run.
Defined.



(** Nothing listed and nothing stored: the mock record is shown. *)
Lemma fetchWorkflows_tiers_witness :
  WorkflowList.fetchWorkflows st0 Throws (Returns (VObj demo))
    (WorkflowList.State (VArr []) true VNull)
  = (Returns (), WorkflowList.State (VArr [VObj demo]) false VNull).
Proof.
  apply (fetchWorkflows_tiers st0 Throws (Returns (VObj demo))
           (WorkflowList.State (VArr []) true VNull) [] []); run.
Defined.

(** The breakdown of [log2]: one entry for each of the two sections. *)
Lemma getSectionBreakdown_groups_witness :
  Forall (λ s, truthy (WorkflowDetail.number s) = true) [entry1; entry2]
  ∧ WorkflowDetail.alternates [entry1; entry2].
Proof.
  apply (getSectionBreakdown_groups (VObj (<[u "messages" := VArr log2]> ∅))).
  run.
Defined.

(** The response that reports section 1 completed leaves the entry
    [in-progress]. *)
Lemma repeated_section_is_ignored_witness :
  WorkflowDetail.getSectionBreakdown
    (VObj (<[u "messages" :=
               VArr (log1 ++ [response "Financial Analyst" 1 true])]> ∅))
  = Returns ([] ++ [entry1]).
Proof.
  apply (repeated_section_is_ignored ∅ log1 (response "Financial Analyst" 1 true)
           (VObj (<[u "section" := VNum (num_of_Z 1)]>
                    (<[u "completed" := VBool true]> ∅)))
           (VNum (num_of_Z 1))); run.
Defined.

(** The statistics of [log2]: three responses counted, the one of an
    agent called [toString] not. *)
Lemma getAgentStats_counts_witness :
  sum_list [2; 1]%nat
  = length (filter (λ m, WorkflowDetail.counted m = true) log2)
  ∧ Sorted WorkflowDetail.descending
      [(2%nat, VStr (u "Financial Analyst"));
       (1%nat, VStr (u "Peer Comparison Analyst"))].
Proof.
  apply (getAgentStats_counts ∅ log2
           [(2%nat, VStr (u "Financial Analyst"));
            (1%nat, VStr (u "Peer Comparison Analyst"))]).
  run.
Defined.


(** In [two_drafts] nothing is a payload for section 4. *)
Lemma slot_null_iff_unclaimed_witness :
  slot (extract two_drafts) (section_key "4") = VNull
  ↔ ∀ b, b ∈ matchAll two_drafts → ¬ claims b (section_key "4").
Proof.
  apply slot_null_iff_unclaimed. do 2 right. left.
Defined.

(** With the template in its place, section 1 is [null]. *)
Lemma section1_only_from_first_pass_witness :
  slot (extract with_template) (section_key "1")
  = default VNull (section1_payload with_template).
Proof.
  apply (section1_only_from_first_pass with_template
           reference_number_key reference_string_key).
Defined.

(** A section that is no integer gets a key of its own. *)
Lemma unlisted_key_is_stored_witness :
  extract fractional_section !! u "section2.5"
  = Some (VObj (<[u "section" := VNum (Fin (25 # 10))]> ∅)).
Proof.
  apply (unlisted_key_is_stored fractional_section [] (lit "{'section':2.5}") []).
  - run.
  - run.
  - intros b Hb. by apply elem_of_nil in Hb.
  - unlisted.
Defined.

(** The drafts of [two_drafts] hold no closing fence. *)
Lemma captured_body_has_no_closing_witness : includes draft1 closing = false.
Proof.
  apply (captured_body_has_no_closing two_drafts).
  replace (matchAll two_drafts) with [draft1; draft2] by run. by left.
Defined.

(** A payload behind the header of a template is a payload. *)
Lemma header_is_stripped_witness :
  candidate (header ++ 123 :: after_brace) = candidate (123 :: after_brace)
  ∧ scan_block empty_sections (header ++ 123 :: after_brace)
    = scan_block empty_sections (123 :: after_brace).
Proof.
  apply header_is_stripped. unlisted.
Defined.

(** The page of section 3: a fetch that is rejected, then the retry;
    and the retry over a transcript whose summary throws, then the
    next one. *)
Lemma retry_fetches_again_witness :
  let s := Pages.State VNull true None in
  let failed := Pages.fetchSectionData 3 None FetchRejected s in
  let refused := Pages.State VNull false (Some Pages.TypeError) in
  failed = (Pages.State VNull false (Some (Pages.FetchFailed FetchRejected)), None)
  ∧ Pages.fetchSectionData 3 failed.2 (Text two_drafts) failed.1
    = (Pages.State payload1 false None, Some (Data (extract two_drafts)))
  ∧ Pages.fetchSectionData 3 failed.2 (Text unprintable_section) failed.1
    = (refused, Some (Data (extract unprintable_section)))
  ∧ truthy
      (Pages.data
         (Pages.fetchSectionData 3 (Some (Data (extract unprintable_section)))
            FetchRejected refused).1) = true.
Proof.
  intros s failed refused.
  destruct (retry_fetches_again two_drafts 3 "3" FetchRejected s)
    as (Hf & _ & Hl & _); [run | done |].
  destruct (retry_fetches_again unprintable_section 3 "3" FetchRejected s)
    as (_ & _ & _ & Ht); [run | done |].
  split; [exact Hf|]. split.
  - destruct Hl as [Hl _]; [run|]. fold failed in Hl. rewrite Hl.
    run.
  - destruct Ht as (Hr & _ & Hn); [run|]. split; [exact Hr|].
    destruct (Hn FetchRejected) as [Hs _].
    change refused
      with (Pages.State (Pages.data s) false (Some Pages.TypeError)).
    rewrite Hs. run.
Defined.

(** With the template in the place of section 1, [CompanySnapshots]
    ends with an error. *)
Lemma fetchCompanyData_needs_section1_witness :
  Pages.fetchCompanyData None (Text with_template) (Pages.State (VArr []) true None)
  = (Pages.State (VArr []) false (Some Pages.TypeError),
     Some (Data (extract with_template))).
Proof.
  destruct (fetchCompanyData_needs_section1 with_template
              (Pages.State (VArr []) true None)
              reference_number_key reference_string_key) as [Hn _].
  apply Hn. run.
Defined.

(** [Valuation Agent] maps to the peer comparison agent. *)
Lemma mapAgentNameToVisualization_range_witness :
  VStr (u "PeerComparisonAgent") = VNull
  ∨ ∃ n, n ∈ AgentWorkflow.drawn ∧ VStr (u "PeerComparisonAgent") = VStr n.
Proof.
  apply (mapAgentNameToVisualization_range (VStr (u "Valuation Agent"))). run.
Defined.

(** The guard on an absent section and on a payload without slides. *)
Lemma no_data_guard_witness :
  Pages.no_data VNull = Returns true ∧ Pages.no_data payload1 = Returns true.
Proof.
  split.
  - by apply (no_data_guard VNull).
  - destruct (no_data_guard payload1) as (_ & _ & _ & Hempty & _).
    apply (Hempty _ eq_refl). run.
Defined.

(** The page of a workflow: the stored record, the mock record under its
    own identifier, an identifier that nothing knows, and a record of
    the backend whose log has a [length] that does not print. *)
Lemma fetchWorkflowDetail_tiers_witness :
  let s := WorkflowDetail.State VNull true VNull in
  WorkflowDetail.fetchWorkflowDetail st1 Throws (Returns (VObj demo)) id0 s
  = WorkflowDetail.State (VObj record0) false VNull
  ∧ WorkflowDetail.fetchWorkflowDetail st1 Throws (Returns (VObj demo))
      (u "workflow-demo") s
    = WorkflowDetail.State (VObj demo) false VNull
  ∧ WorkflowDetail.fetchWorkflowDetail st1 Throws Throws (u "workflow-demo") s
    = WorkflowDetail.State VNull false (VStr (u "Workflow not found"))
  ∧ WorkflowDetail.fetchWorkflowDetail st1 (Returns unprintable_reply) Throws
      id0 s
    = WorkflowDetail.State VNull false
        (VStr (u "Failed to load workflow details")).
Proof.
  intros s. split; [|split; [|split]].
  - destruct (fetchWorkflowDetail_tiers st1 Throws (Returns (VObj demo)) id0 s)
      as (_ & Hfound & _).
    rewrite Hfound; run.
  - destruct (fetchWorkflowDetail_tiers st1 Throws (Returns (VObj demo))
                (u "workflow-demo") s) as (_ & _ & _ & Hmock & _).
    destruct Hmock as [Hmock _]; [run | run |].
    rewrite (Hmock demo eq_refl); [run|]. left. run.
  - destruct (fetchWorkflowDetail_tiers st1 Throws Throws (u "workflow-demo") s)
      as (_ & _ & _ & Hmock & _).
    destruct Hmock as [_ Hnone]; [run | run |].
    apply Hnone. by intros o.
  - destruct (fetchWorkflowDetail_tiers st1 (Returns unprintable_reply) Throws
                id0 s) as (_ & Hfound & _).
    rewrite Hfound; run.
Defined.

(** The list of workflows over an entry that holds [null]: the promise
    rejects, and no error is set; and over an entry whose [length] does
    not print: the listing throws, the [catch] shows the entry, and no
    error is set. *)
Lemma fetchWorkflows_never_reports_witness :
  let s := WorkflowList.State (VArr []) false VNull in
  (WorkflowList.fetchWorkflows st_null Throws Throws s).1 = Throws
  ∧ WorkflowList.loading (WorkflowList.fetchWorkflows st_null Throws Throws s).2
    = true
  ∧ WorkflowList.error (WorkflowList.fetchWorkflows st_null Throws Throws s).2
    = VNull
  ∧ getAllWorkflows st_unprintable Throws = Throws
  ∧ (WorkflowList.fetchWorkflows st_unprintable Throws Throws s).1 = Returns ()
  ∧ WorkflowList.error
      (WorkflowList.fetchWorkflows st_unprintable Throws Throws s).2
    = VNull.
Proof.
  intros s.
  destruct (fetchWorkflows_never_reports st_null Throws Throws s) as [He _].
  destruct (fetchWorkflows_never_reports st_unprintable Throws Throws s)
    as [He' _].
  split; [run|]. split; [run|]. split; [exact He|].
  split; [run|]. split; [run | exact He'].
Defined.

(** Names as the orchestrator writes them. *)
Lemma mapAgentNameToVisualization_normalizes_witness :
  AgentWorkflow.mapAgentNameToVisualization (VStr (u "Financial Documents"))
  = AgentWorkflow.mapAgentNameToVisualization (VStr (u "FinancialDocuments"))
  ∧ AgentWorkflow.mapAgentNameToVisualization (VStr (u "FinancialDocumentsAGENT"))
    = AgentWorkflow.mapAgentNameToVisualization (VStr (u "FinancialDocuments")).
Proof.
  destruct mapAgentNameToVisualization_normalizes as [Hspace Hagent].
  split.
  - apply (Hspace (u "Financial Documents")).
  - apply (Hagent (u "FinancialDocuments") (u "AGENT")); [|run|run].
    apply Forall_forall. intros c Hc.
    repeat (apply elem_of_cons in Hc as [->|Hc]; [reflexivity|]).
    by apply elem_of_nil in Hc.
Defined.

(** The second draft of [two_drafts] stands there as a fenced block. *)
Lemma captured_body_is_fenced_witness :
  draft2 ∈ matchAll two_drafts
  ∧ ∃ pre t ws post,
      two_drafts = pre ++ render (Fenced t ws draft2) ++ post
      ∧ (t = [] ∨ t = u "json")
      ∧ Forall (λ a, is_space a = true) ws.
Proof.
  assert (draft2 ∈ matchAll two_drafts) as Hin.
  { replace (matchAll two_drafts) with [draft1; draft2] by run.
    right. left. }
  split; [done|]. by apply captured_body_is_fenced.
Defined.

(** Section 3 of [two_drafts] holds what the loop made of a match. *)
Lemma slots_hold_payloads_witness :
  (section_key "3" = section_key "1"
   ∧ section1_payload two_drafts = Some payload1)
  ∨ ∃ b, b ∈ matchAll two_drafts
         ∧ candidate b = Some (section_key "3", payload1).
Proof. apply slots_hold_payloads; run. Defined.

(** A reply that reports success and names no workflow. *)
Lemma backend_success_bypasses_store_witness :
  let reply := VObj (<[u "success" := VBool true]> ∅) in
  addMessage e0 st1 (Returns reply) id0 message0 = (Returns Success, st1)
  ∧ getWorkflow st1 (Returns reply) id0 = VUndefined.
Proof.
  intros reply.
  destruct (backend_success_bypasses_store e0 st1 (Returns reply) id0 message0
              (VStr (u "completed")) reply) as (Ha & _ & _ & w & Hw & Hg); [run|].
  split; [exact Ha|]. rewrite Hg. vm_compute in Hw. by injection Hw as <-.
Defined.

End MoreSamples.
